(** * HttpClient: a shallow embedding of [src/lib/httpClient/httpClient.ts]

    The client issues one HTTP request through Node's [http.request], turns
    the transport's events into telemetry events and settles a promise with
    the response or the error.  The embedding keeps the shape of the source:

    - JavaScript values, strings (UTF-16 code units) and option objects are
      data ([JsValue], [JsString], [gmap string OptVal]);
    - the synchronous body of [request] is a computation in a small
      state-and-exception monad [M] over the state of one request;
    - event emitters hold their [once] listeners as data, the transport's
      asynchronous events are [Signal]s, and [step] delivers one signal. *)

From Stdlib Require Import ZArith NArith List String Ascii Bool Lia Sorted.
From stdpp Require Import base option list gmap strings fin_maps sorting.
Import ListNotations.

Local Open Scope string_scope.
Local Open Scope list_scope.

(** ** JavaScript values *)

Module Js.

(** A JavaScript string is a sequence of UTF-16 code units; [s.length]
    counts code units. *)
Definition JsString := list N.

Definition is_high_surrogate (c : N) : bool :=
  (N.leb 55296 c && N.ltb c 56320)%N.

Definition is_low_surrogate (c : N) : bool :=
  (N.leb 56320 c && N.ltb c 57344)%N.

(** Node's [Buffer.byteLength(s, "utf8")]: the number of octets that
    [req.end(s)] writes for a string chunk (the default encoding of a
    string chunk is UTF-8).  A surrogate pair is one code point of four
    octets; a lone surrogate is written as U+FFFD, three octets. *)
Fixpoint utf8_byteLength (s : JsString) : nat :=
  match s with
  | [] => 0
  | c :: rest =>
      if N.ltb c 128 then S (utf8_byteLength rest)
      else if N.ltb c 2048 then 2 + utf8_byteLength rest
      else if is_high_surrogate c then
        match rest with
        | d :: rest' =>
            if is_low_surrogate d then 4 + utf8_byteLength rest'
            else 3 + utf8_byteLength rest
        | [] => 3
        end
      else 3 + utf8_byteLength rest
  end.

(** The values a caller can hand to [request] as [data].  TypeScript
    declares [data?: Consumable]; the check at the top of [request] exists
    for callers that are not type-checked, so the model ranges over
    JavaScript values at large.  Numbers are integer-valued or NaN, which
    is all that truthiness needs. *)
Inductive JsValue :=
| JUndefined
| JNull
| JBool (b : bool)
| JNumber (z : Z)
| JNaN
| JString (s : JsString)
| JBuffer (octets : list Byte.byte)
| JReadable (id : nat)
| JObject (tag : string).

(** ToBoolean, as used by [data && ...]. *)
Definition truthy (v : JsValue) : bool :=
  match v with
  | JUndefined | JNull | JNaN => false
  | JBool b => b
  | JNumber z => negb (Z.eqb z 0)
  | JString s => match s with [] => false | _ => true end
  | JBuffer _ | JReadable _ | JObject _ => true
  end.

Definition isBuffer (v : JsValue) : bool :=
  match v with JBuffer _ => true | _ => false end.

Definition instanceof_Readable (v : JsValue) : bool :=
  match v with JReadable _ => true | _ => false end.

Definition typeof_string (v : JsValue) : bool :=
  match v with JString _ => true | _ => false end.

End Js.
Import Js.

(** ** Request options *)

(** Modelled from the spec: [Method] of [./types] is not among the sources;
    the wrappers use its members [Get], [Post] and [Delete] (retrieve,
    submit-with-body, remove). *)
Inductive Method := Get | Post | Delete.

Inductive HeaderVal :=
| HNum (n : Z)
| HStr (s : string).

(** A value stored under a key of a [RequestOptions] object. *)
Inductive OptVal :=
| OMethod (m : Method)
| OHeaders (h : gmap string HeaderVal)
| OOther (v : string).

(** [RequestOptions] is a JavaScript object used as a map from option names
    to values. *)
Abbreviation RequestOptions := (gmap string OptVal).

(** [{...a, ...b}]: the keys of [b] win. *)
Definition spread (a b : RequestOptions) : RequestOptions := b ∪ a.

(** [{...o}] for an optional object: spreading [undefined] adds nothing. *)
Definition spread_opt (o : option RequestOptions) : RequestOptions :=
  default ∅ o.

(** [reqOpts.headers], spread into a fresh object literal. *)
Definition headers_of (o : RequestOptions) : gmap string HeaderVal :=
  match o !! "headers" with
  | Some (OHeaders h) => h
  | _ => ∅
  end.

(** ** Content length and the body check *)

(** [isConsumable] (lines 178-186). *)
Definition isConsumable (maybeConsumable : JsValue) : bool :=
  isBuffer maybeConsumable
  || instanceof_Readable maybeConsumable
  || typeof_string maybeConsumable.

(** [getContentLength] (lines 188-198): [Buffer.byteLength] of a buffer is
    its number of octets; for a string the source returns [data.length]. *)
Definition getContentLength (data : JsValue) : option Z :=
  match data with
  | JBuffer octets => Some (Z.of_nat (length octets))
  | JString s => Some (Z.of_nat (length s))
  | _ => None
  end.

(** Lines 75-82.  [contentLength !== NaN] holds of every value, so the
    guard is [typeof contentLength === "number"]; [Object.assign] replaces
    the [headers] key of the options object the caller passed. *)
Definition assign_content_length (contentLength : option Z)
    (reqOpts : RequestOptions) : RequestOptions :=
  match contentLength with
  | Some n =>
      <["headers" := OHeaders (<["content-length" := HNum n]> (headers_of reqOpts))]>
        reqOpts
  | None => reqOpts
  end.

(** ** Errors, responses and telemetry events *)

(** A JavaScript [Error]: the class name, the transport's [code] when it
    has one (["ENOTFOUND"], ["ECONNRESET"], ["ENOENT"]), and the message. *)
Record Err := mkErr {
  err_name : string;
  err_code : option string;
  err_message : string
}.

(** Line 69. *)
Definition invalid_body_error : Err :=
  mkErr "TypeError" None "body must be one of: Readable, Buffer, string".

(** The [TypeError] of the platform's [URL] constructor. *)
Definition invalid_url_error : Err :=
  mkErr "TypeError" (Some "ERR_INVALID_URL") "Invalid URL".

(** Lines 17-20. *)
Definition unsupported_protocol_error (protocol : string) : Err :=
  mkErr "Error" None
    ("only http protocol is supported, got " ++ protocol
     ++ " use HttpsClient for https, or Http2Client for http2").

(** The response handle ([IncomingMessage]) that the transport passes with
    its ['response'] event. *)
Record IncomingMessage := mkRes {
  statusCode : Z;
  res_body : list Byte.byte
}.

(** A parsed [URL] object. *)
Record URL := mkURL {
  protocol : string;
  href : string
}.

(** What an event carries to its listeners. *)
Inductive Payload :=
| PUndef
| PSocket
| PRes (res : IncomingMessage)
| PErr (error : Err).

(** Modelled from the spec: [EventType] of [./telemetry] is not among the
    sources.  The members are the ones [request] publishes, in the order of
    the spec's event kinds 1 to 6: RequestInitiated, SocketObtained,
    ConnectionEstablished, BodyTransmissionCompleted, ResponseReceived,
    RequestFailed. *)
Inductive EventType :=
| RequestStreamInitialised
| SocketObtained
| ConnectionEstablished
| RequestStreamEnded
| ResponseStreamReceived
| RequestError.

(** Modelled from the spec: the class [TelemetryEvent] of [./telemetry] is
    not among the sources; it is a tagged record of a kind, an optional
    payload and an optional error, built as
    [new TelemetryEvent(type, data?, error?)]. *)
Record TelemetryEvent := mkEvent {
  ev_type : EventType;
  ev_data : option (URL * RequestOptions);
  ev_error : Payload
}.

(** The caller's telemetry emitter, seen from [request]: given the events
    published so far and the event being published, [Some v] when one of
    its listeners throws [v], [None] when [emit] returns. *)
Definition Sink := list TelemetryEvent -> TelemetryEvent -> option Payload.

(** ** The state of one request *)

(** Event names of the transport objects and of the resolver:
    ["socket"], ["connect"], ["response"], ["error"], ["resolve"],
    ["reject"]. *)
Inductive EventName :=
| evSocket | evConnect | evResponse | evError | evResolve | evReject.

Definition EventName_eqb (a b : EventName) : bool :=
  match a, b with
  | evSocket, evSocket | evConnect, evConnect | evResponse, evResponse
  | evError, evError | evResolve, evResolve | evReject, evReject => true
  | _, _ => false
  end.

(** The listeners [request] registers on [req], on the socket and on the
    body stream (lines 97, 103, 111, 120 and 138). *)
Inductive TransportHandler :=
| OnSocket | OnConnect | OnResponse | OnError | OnDataError.

(** The promise's [resolve] and [reject], registered on [resolver]
    (lines 160-161). *)
Inductive ResolverHandler := ResolveFn | RejectFn.

(** An [EventEmitter] whose listeners were all added with [once], in the
    order they were added. *)
Definition Emitter (H : Type) := list (EventName * H).

Inductive Target := TReq | TSocket | TData | TResolver.

Inductive PromiseState :=
| Pending
| Fulfilled (v : Payload)
| Rejected (v : Payload).

(** Calls made on the transport and on the body stream, in program order. *)
Inductive Effect :=
| EOpen (url : URL) (reqOpts : RequestOptions)
| ESetMaxListeners (n : nat)
| EOnce (t : Target) (ev : EventName)
| EPipe (src : nat)
| EEnd (chunk : JsValue)
| EDestroy (cause : Payload).

Record State := mkState {
  em_req : Emitter TransportHandler;
  em_socket : Emitter TransportHandler;
  em_data : Emitter TransportHandler;
  em_resolver : Emitter ResolverHandler;
  (** the returned promise, each change of its state, and the number of
      calls of [resolve] or [reject] *)
  promise : PromiseState;
  settlements : list PromiseState;
  settle_calls : nat;
  (** events handed to the telemetry emitter *)
  telemetry_log : list TelemetryEvent;
  effects : list Effect;
  (** [http.request] has created the request object *)
  opened : bool;
  (** [req.destroyed], with the cause given to the first [destroy] *)
  destroyed : option Payload;
  (** the ['error'] event that [destroy(error)] has scheduled on [req] *)
  pending : option Payload;
  (** exceptions that left a listener called by the platform *)
  uncaught : list Payload;
  (** the body stream, when the body is one *)
  source : option nat;
  (** the options object passed by the caller, as [request] leaves it *)
  req_opts : RequestOptions
}.

Definition with_em_req em st :=
  mkState em (em_socket st) (em_data st) (em_resolver st) (promise st)
    (settlements st) (settle_calls st) (telemetry_log st) (effects st)
    (opened st) (destroyed st) (pending st) (uncaught st) (source st)
    (req_opts st).
Definition with_em_socket em st :=
  mkState (em_req st) em (em_data st) (em_resolver st) (promise st)
    (settlements st) (settle_calls st) (telemetry_log st) (effects st)
    (opened st) (destroyed st) (pending st) (uncaught st) (source st)
    (req_opts st).
Definition with_em_data em st :=
  mkState (em_req st) (em_socket st) em (em_resolver st) (promise st)
    (settlements st) (settle_calls st) (telemetry_log st) (effects st)
    (opened st) (destroyed st) (pending st) (uncaught st) (source st)
    (req_opts st).
Definition with_em_resolver em st :=
  mkState (em_req st) (em_socket st) (em_data st) em (promise st)
    (settlements st) (settle_calls st) (telemetry_log st) (effects st)
    (opened st) (destroyed st) (pending st) (uncaught st) (source st)
    (req_opts st).
Definition with_promise p ss n st :=
  mkState (em_req st) (em_socket st) (em_data st) (em_resolver st) p ss n
    (telemetry_log st) (effects st) (opened st) (destroyed st) (pending st)
    (uncaught st) (source st) (req_opts st).
Definition with_telemetry_log l st :=
  mkState (em_req st) (em_socket st) (em_data st) (em_resolver st)
    (promise st) (settlements st) (settle_calls st) l (effects st) (opened st)
    (destroyed st) (pending st) (uncaught st) (source st) (req_opts st).
Definition with_effects l st :=
  mkState (em_req st) (em_socket st) (em_data st) (em_resolver st)
    (promise st) (settlements st) (settle_calls st) (telemetry_log st) l
    (opened st) (destroyed st) (pending st) (uncaught st) (source st)
    (req_opts st).
Definition with_opened b st :=
  mkState (em_req st) (em_socket st) (em_data st) (em_resolver st)
    (promise st) (settlements st) (settle_calls st) (telemetry_log st)
    (effects st) b (destroyed st) (pending st) (uncaught st) (source st)
    (req_opts st).
Definition with_destroyed d p st :=
  mkState (em_req st) (em_socket st) (em_data st) (em_resolver st)
    (promise st) (settlements st) (settle_calls st) (telemetry_log st)
    (effects st) (opened st) d p (uncaught st) (source st) (req_opts st).
Definition with_uncaught l st :=
  mkState (em_req st) (em_socket st) (em_data st) (em_resolver st)
    (promise st) (settlements st) (settle_calls st) (telemetry_log st)
    (effects st) (opened st) (destroyed st) (pending st) l (source st)
    (req_opts st).

(** The body, when it is a stream. *)
Definition body_stream (data : JsValue) : option nat :=
  match data with
  | JReadable id => Some id
  | _ => None
  end.

(** The state before [request] has done anything. *)
Definition init_state (data : JsValue) (reqOpts : RequestOptions) : State :=
  mkState [] [] [] [] Pending [] 0 [] [] false None None []
    (body_stream data) reqOpts.

(** ** The monad of the synchronous code: state and exceptions *)

Inductive Result (A : Type) :=
| Ok (a : A)
| Throw (v : Payload).
Arguments Ok {A} a.
Arguments Throw {A} v.

Definition M (A : Type) := State -> Result A * State.

Definition ret {A} (a : A) : M A := fun st => (Ok a, st).

Definition bind {A B} (m : M A) (f : A -> M B) : M B :=
  fun st =>
    match m st with
    | (Ok a, st') => f a st'
    | (Throw v, st') => (Throw v, st')
    end.

Definition throw {A} (v : Payload) : M A := fun st => (Throw v, st).

Definition modify (f : State -> State) : M unit := fun st => (Ok tt, f st).

Declare Scope M_scope.
Delimit Scope M_scope with M.
Notation "'let*' x := m 'in' k" := (bind m (fun x => k))
  (at level 10, x name, m at level 100, k at level 200,
   format "'[v' 'let*'  x  :=  m  'in' '/' k ']'") : M_scope.
Notation "m ;;; k" := (bind m (fun _ => k))
  (at level 100, k at level 200, right associativity) : M_scope.
Local Open Scope M_scope.

Definition effect (e : Effect) : M unit :=
  modify (fun st => with_effects (effects st ++ [e]) st).

(** [http.request(url, reqOpts)] (line 88): the request object exists from
    here on.  The call is taken to return the request object.  The platform
    itself throws here, before anything else happens, on an address whose
    protocol is not ["http:"] and on options it finds invalid; a statement
    about a call that got past this line is made under [transport_accepts]
    or for a call that returned. *)
Definition http_request (url : URL) (reqOpts : RequestOptions) : M unit :=
  effect (EOpen url reqOpts) ;;;
  modify (with_opened true).

(** ** Event emitters *)

(** One of the four emitters of a request, as a field of the state. *)
Record Lens (H : Type) := mkLens {
  target : Target;
  get_em : State -> Emitter H;
  set_em : Emitter H -> State -> State
}.
Arguments target {H} _.
Arguments get_em {H} _ _.
Arguments set_em {H} _ _ _.

Definition req_em : Lens TransportHandler := mkLens _ TReq em_req with_em_req.
Definition socket_em : Lens TransportHandler := mkLens _ TSocket em_socket with_em_socket.
Definition data_em : Lens TransportHandler := mkLens _ TData em_data with_em_data.
Definition resolver_em : Lens ResolverHandler := mkLens _ TResolver em_resolver with_em_resolver.

(** [emitter.once(ev, h)]. *)
Definition once {H} (L : Lens H) (ev : EventName) (h : H) : M unit :=
  effect (EOnce (target L) ev) ;;;
  modify (fun st => set_em L (get_em L st ++ [(ev, h)]) st).

(** The listeners of [ev], in the order they were added. *)
Fixpoint handlers_for {H} (ev : EventName) (em : Emitter H) : list H :=
  match em with
  | [] => []
  | (e, h) :: em' =>
      if EventName_eqb e ev then h :: handlers_for ev em'
      else handlers_for ev em'
  end.

(** A [once] listener is removed just before it is called: the oldest
    listener of [ev] that is still attached. *)
Fixpoint remove_first {H} (ev : EventName) (em : Emitter H) : Emitter H :=
  match em with
  | [] => []
  | (e, h) :: em' =>
      if EventName_eqb e ev then em' else (e, h) :: remove_first ev em'
  end.

(** Calls the listeners in turn; one that throws ends the emission and
    leaves the later ones attached. *)
Fixpoint invoke {H} (L : Lens H) (run : H -> Payload -> M unit)
    (ev : EventName) (arg : Payload) (hs : list H) : M unit :=
  match hs with
  | [] => ret tt
  | h :: hs' =>
      modify (fun st => set_em L (remove_first ev (get_em L st)) st) ;;;
      run h arg ;;;
      invoke L run ev arg hs'
  end.

(** [emitter.emit(ev, arg)]: [true] when the event had listeners.  An
    ['error'] event without a listener is thrown. *)
Definition emit {H} (L : Lens H) (run : H -> Payload -> M unit)
    (ev : EventName) (arg : Payload) : M bool :=
  fun st =>
    match handlers_for ev (get_em L st) with
    | [] =>
        match ev with
        | evError => (Throw arg, st)
        | _ => (Ok false, st)
        end
    | hs => (invoke L run ev arg hs ;;; ret true) st
    end.

(** ** The listeners of [request] *)

(** [telemetry?.emit(type, new TelemetryEvent(...))]: nothing without an
    emitter; with one, the event is handed over and a throwing listener
    makes [emit] throw. *)
Definition telemetry_emit (telemetry : option Sink) (ev : TelemetryEvent)
    : M unit :=
  fun st =>
    match telemetry with
    | None => (Ok tt, st)
    | Some sink =>
        let st' := with_telemetry_log (telemetry_log st ++ [ev]) st in
        match sink (telemetry_log st) ev with
        | Some v => (Throw v, st')
        | None => (Ok tt, st')
        end
    end.

(** The promise's [resolve] and [reject]: the first call settles the
    promise, later calls do nothing. *)
Definition settle (p : PromiseState) : M unit :=
  modify (fun st =>
    match promise st with
    | Pending => with_promise p (settlements st ++ [p]) (S (settle_calls st)) st
    | _ => with_promise (promise st) (settlements st) (S (settle_calls st)) st
    end).

Definition run_resolver (h : ResolverHandler) (arg : Payload) : M unit :=
  match h with
  | ResolveFn => settle (Fulfilled arg)
  | RejectFn => settle (Rejected arg)
  end.

(** [req.destroy(cause)].  The transport's side of it is the one the source
    relies on in its comments (lines 121-125 and 139-143): the first call
    destroys the request, a cause is emitted as the request's own ['error']
    event, and no further events are emitted; a call on a destroyed request
    does nothing. *)
Definition req_destroy (cause : Payload) : M unit :=
  effect (EDestroy cause) ;;;
  modify (fun st =>
    match destroyed st with
    | Some _ => st
    | None =>
        with_destroyed (Some cause)
          (match cause with PUndef => None | _ => Some cause end) st
    end).

(** The bodies of the listeners at lines 97-109, 103-108, 111-118, 120-134
    and 138-145. *)
Definition run_transport (telemetry : option Sink) (h : TransportHandler)
    (arg : Payload) : M unit :=
  match h with
  | OnSocket =>
      telemetry_emit telemetry (mkEvent SocketObtained None PUndef) ;;;
      once socket_em evConnect OnConnect
  | OnConnect =>
      telemetry_emit telemetry (mkEvent ConnectionEstablished None PUndef)
  | OnResponse =>
      telemetry_emit telemetry (mkEvent ResponseStreamReceived None PUndef) ;;;
      let* _ := emit resolver_em run_resolver evResolve arg in
      ret tt
  | OnError =>
      req_destroy PUndef ;;;
      telemetry_emit telemetry (mkEvent RequestError None arg) ;;;
      let* _ := emit resolver_em run_resolver evReject arg in
      ret tt
  | OnDataError =>
      req_destroy arg
  end.

(** ** The transport's events *)

(** What the platform reports after [request] has returned: the request's
    ['socket'], ['response'] and ['error'] events, the socket's ['connect']
    and the body stream's ['error']. *)
Inductive Signal :=
| SigSocket
| SigConnect
| SigResponse (res : IncomingMessage)
| SigError (e : Err)
| SigDataError (e : Err).

(** Runs a listener chain from the event loop: an exception that leaves it
    is uncaught. *)
Definition deliver {A} (m : M A) (st : State) : State :=
  match m st with
  | (Ok _, st') => st'
  | (Throw v, st') => with_uncaught (uncaught st' ++ [v]) st'
  end.

(** The ['error'] event that [req.destroy(error)] scheduled. *)
Definition flush_destroy (telemetry : option Sink) (st : State) : State :=
  match pending st with
  | None => st
  | Some v =>
      deliver (emit req_em (run_transport telemetry) evError v)
        (with_destroyed (destroyed st) None st)
  end.

(** Only a request that exists emits events; a destroyed request emits
    nothing more, and its socket is destroyed with it.  The request is
    destroyed by the code's own [req.destroy]; that the platform also marks
    a request destroyed once its exchange has finished is not a signal of
    the model, so what an error of the body stream does is stated for
    traces in which no response and no error came before it. *)
Definition unless_destroyed (f : State -> State) (st : State) : State :=
  match destroyed st with
  | Some _ => st
  | None => if opened st then f st else st
  end.

Definition step (telemetry : option Sink) (sig : Signal) (st : State) : State :=
  flush_destroy telemetry
    match sig with
    | SigSocket =>
        unless_destroyed
          (deliver (emit req_em (run_transport telemetry) evSocket PSocket)) st
    | SigConnect =>
        unless_destroyed
          (deliver (emit socket_em (run_transport telemetry) evConnect PUndef)) st
    | SigResponse res =>
        unless_destroyed
          (deliver (emit req_em (run_transport telemetry) evResponse (PRes res))) st
    | SigError e =>
        unless_destroyed
          (deliver (emit req_em (run_transport telemetry) evError (PErr e))) st
    | SigDataError e =>
        match source st with
        | Some _ =>
            deliver (emit data_em (run_transport telemetry) evError (PErr e)) st
        | None => st
        end
    end.

Definition run (telemetry : option Sink) (sigs : list Signal) (st : State)
    : State :=
  fold_left (fun s sig => step telemetry sig s) sigs st.

(** ** The client *)

Inductive PathOrUrl :=
| PPath (path : string)
| PUrl (url : URL).

Record Client := mkClient {
  baseUrl : string;
  baseReqOpts : option RequestOptions
}.

Inductive Completion :=
| Returned
| Threw (v : Payload).

(** How a call of [request] ends, and the state it leaves. *)
Record CallResult := mkCall {
  completion : Completion;
  state : State
}.

Module HttpClient.
Section Platform.

(** The platform's [new URL(input, base?)]; [None] when it throws. *)
Variable new_URL : string -> option string -> option URL.

(** The constructor (lines 13-25): the error thrown, or the instance. *)
Definition constructor (baseUrl : string)
    (baseReqOpts : option RequestOptions) : Err + Client :=
  match new_URL baseUrl None with
  | None => inl invalid_url_error
  | Some u =>
      if negb (String.eqb (protocol u) "http:")
      then inl (unsupported_protocol_error (protocol u))
      else inr (mkClient baseUrl baseReqOpts)
  end.

(** [buildUrl] (lines 165-166). *)
Definition buildUrl (this : Client) (pathOrUrl : PathOrUrl) : M URL :=
  match pathOrUrl with
  | PUrl u => ret u
  | PPath path =>
      match new_URL path (Some (baseUrl this)) with
      | Some u => ret u
      | None => throw (PErr invalid_url_error)
      end
  end.

(** [combineOpts] (lines 168-175). *)
Definition combineOpts (this : Client) (method : Method)
    (reqOpts : option RequestOptions) : RequestOptions :=
  <["method" := OMethod method]>
    (spread (spread_opt (baseReqOpts this)) (spread_opt reqOpts)).

(** Lines 84-162 of [request], after the body check and the content
    length. *)
Definition request_body (this : Client) (pathOrUrl : PathOrUrl)
    (reqOpts : RequestOptions) (data : JsValue) (telemetry : option Sink)
    : M unit :=
  let* url := buildUrl this pathOrUrl in
  http_request url reqOpts ;;;
  effect (ESetMaxListeners 5) ;;;
  telemetry_emit telemetry
    (mkEvent RequestStreamInitialised (Some (url, reqOpts)) PUndef) ;;;
  once req_em evSocket OnSocket ;;;
  once req_em evResponse OnResponse ;;;
  once req_em evError OnError ;;;
  match data with
  | JReadable id =>
      once data_em evError OnDataError ;;;
      effect (EPipe id)
  | _ => effect (EEnd data)
  end ;;;
  telemetry_emit telemetry (mkEvent RequestStreamEnded None PUndef) ;;;
  once resolver_em evResolve ResolveFn ;;;
  once resolver_em evReject RejectFn.

(** [request] (lines 61-163). *)
Definition request (this : Client) (pathOrUrl : PathOrUrl)
    (reqOpts : RequestOptions) (data : JsValue) (telemetry : option Sink)
    : CallResult :=
  if truthy data && negb (isConsumable data) then
    mkCall Returned
      (snd (settle (Rejected (PErr invalid_body_error))
              (init_state data reqOpts)))
  else
    let reqOpts := assign_content_length (getContentLength data) reqOpts in
    match request_body this pathOrUrl reqOpts data telemetry
            (init_state data reqOpts) with
    | (Ok _, st) => mkCall Returned st
    | (Throw v, st) => mkCall (Threw v) st
    end.

(** [get], [post] and [delete] (lines 27-59).  Each returns the promise of
    [request] chained with [toBufferResponse] of [./transform], which is
    not among the sources and reads the resolved response into a buffer. *)
Definition get (this : Client) (pathOrUrl : PathOrUrl)
    (reqOpts : option RequestOptions) (telemetry : option Sink) : CallResult :=
  let opts := combineOpts this Get reqOpts in
  request this pathOrUrl opts JUndefined telemetry.

Definition post (this : Client) (pathOrUrl : PathOrUrl)
    (reqOpts : option RequestOptions) (data : JsValue)
    (telemetry : option Sink) : CallResult :=
  let opts := combineOpts this Post reqOpts in
  request this pathOrUrl opts data telemetry.

Definition delete (this : Client) (pathOrUrl : PathOrUrl)
    (reqOpts : option RequestOptions) (telemetry : option Sink) : CallResult :=
  let opts := combineOpts this Delete reqOpts in
  request this pathOrUrl opts JUndefined telemetry.

End Platform.
End HttpClient.

(** ** Sample inputs *)

(** A stand-in for the platform's [URL] parser on the inputs of the
    examples: absolute [http:] and [https:] addresses, and paths resolved
    against a base. *)
Definition sample_URL (input : string) (base : option string) : option URL :=
  if String.prefix "http://" input then Some (mkURL "http:" input)
  else if String.prefix "https://" input then Some (mkURL "https:" input)
  else
    match base with
    | Some b => Some (mkURL "http:" (b ++ input))
    | None => None
    end.

Definition sample_client : Client := mkClient "http://localhost:3000/" None.

Definition sample_response : IncomingMessage := mkRes 200 [].

Definition ENOTFOUND : Err :=
  mkErr "Error" (Some "ENOTFOUND") "getaddrinfo ENOTFOUND non-existent-host".

Definition ECONNRESET : Err :=
  mkErr "Error" (Some "ECONNRESET") "socket hang up".

Definition ENOENT : Err :=
  mkErr "Error" (Some "ENOENT") "no such file or directory".

(** A telemetry emitter whose listeners all return. *)
Definition noop_sink : Sink := fun _ _ => None.

(** A telemetry emitter with a listener on one kind of event that throws,
    as the [RequestError] listeners of the GET and POST tests do. *)
Definition throwing_sink (t : EventType) : Sink :=
  fun _ ev =>
    match t, ev_type ev with
    | RequestStreamInitialised, RequestStreamInitialised
    | SocketObtained, SocketObtained
    | ConnectionEstablished, ConnectionEstablished
    | RequestStreamEnded, RequestStreamEnded
    | ResponseStreamReceived, ResponseStreamReceived
    | RequestError, RequestError =>
        Some (PErr (mkErr "Error" None "unexpected event"))
    | _, _ => None
    end.

(** The request of the GET tests: [client.request("/", {}, undefined,
    telemetry)]. *)
Definition sample_get (telemetry : option Sink) : CallResult :=
  HttpClient.request sample_URL sample_client (PPath "/") ∅ JUndefined telemetry.

(** The request of the stream test: a POST whose body is a stream. *)
Definition sample_post_stream (telemetry : option Sink) : CallResult :=
  HttpClient.request sample_URL sample_client (PPath "/") ∅ (JReadable 1)
    telemetry.

(** The string of one code unit U+00E9. *)
Definition e_acute : JsString := [233%N].

(** A parser that, like the platform's, refuses an address whose host
    bracket is left open. *)
Definition strict_URL (input : string) (base : option string) : option URL :=
  if String.eqb input "http://[" then None else sample_URL input base.

(** Base options and per-call options that both carry a [headers] object. *)
Definition sample_base_options : RequestOptions :=
  {["headers" := OHeaders {["authorization" := HStr "Bearer token"]}]}.

Definition sample_call_options : RequestOptions :=
  {["headers" := OHeaders {["accept" := HStr "text/plain"]}]}.

Definition sample_client_with_base : Client :=
  mkClient "http://localhost:3000/" (Some sample_base_options).

(** ** Vocabulary of the statements *)

(** [own] if it is there, else [base]. *)
Definition override {A} (own base : option A) : option A :=
  match own with
  | Some v => Some v
  | None => base
  end.

(** The call left the caller's options as they were, derived no length,
    and every option object handed to the transport or to telemetry is the
    caller's. *)
Definition keeps_caller_options (reqOpts : RequestOptions) (data : JsValue)
    (r : CallResult) : Prop :=
  getContentLength data = None
  /\ req_opts (state r) = reqOpts
  /\ headers_of (req_opts (state r)) !! "content-length"
     = headers_of reqOpts !! "content-length"
  /\ (forall url o, In (EOpen url o) (effects (state r)) -> o = reqOpts)
  /\ (forall ev url o, In ev (telemetry_log (state r)) ->
        ev_data ev = Some (url, o) -> o = reqOpts).

Definition EventType_eqb (a b : EventType) : bool :=
  match a, b with
  | RequestStreamInitialised, RequestStreamInitialised
  | SocketObtained, SocketObtained
  | ConnectionEstablished, ConnectionEstablished
  | RequestStreamEnded, RequestStreamEnded
  | ResponseStreamReceived, ResponseStreamReceived
  | RequestError, RequestError => true
  | _, _ => false
  end.

(** An event of kind [t] was handed to the telemetry emitter. *)
Definition published (t : EventType) (log : list TelemetryEvent) : bool :=
  existsb (fun ev => EventType_eqb (ev_type ev) t) log.

(** The order in which [request] publishes: the two events of the
    synchronous part, then the transport's stages, then the failure. *)
Definition stage (t : EventType) : nat :=
  match t with
  | RequestStreamInitialised => 1
  | RequestStreamEnded => 2
  | SocketObtained => 3
  | ConnectionEstablished => 4
  | ResponseStreamReceived => 5
  | RequestError => 6
  end.


Definition signal_stage (sig : Signal) : nat :=
  match sig with
  | SigSocket => 3
  | SigConnect => 4
  | SigResponse _ => 5
  | SigError _ | SigDataError _ => 6
  end.

(** Publication order on events. *)
Definition stage_lt (a b : TelemetryEvent) : Prop :=
  stage (ev_type a) < stage (ev_type b).

(** Nothing follows a published failure. *)
Definition failure_last (log : list TelemetryEvent) : Prop :=
  forall l1 ev l2, log = l1 ++ ev :: l2 -> ev_type ev = RequestError -> l2 = [].


(** The event that a signal makes [request] publish. *)
Definition publishes (sig : Signal) (ev : TelemetryEvent) : Prop :=
  match sig, ev_type ev with
  | SigSocket, SocketObtained => True
  | SigConnect, ConnectionEstablished => True
  | SigResponse _, ResponseStreamReceived => True
  | SigError e, RequestError | SigDataError e, RequestError =>
      ev_error ev = PErr e
  | _, _ => False
  end.

(** The transport stage of an event was reached: a signal of the trace
    publishes it. *)
Definition reached (sigs : list Signal) (ev : TelemetryEvent) : Prop :=
  match ev_type ev with
  | RequestStreamInitialised | RequestStreamEnded => True
  | _ => exists sig, In sig sigs /\ publishes sig ev
  end.

(** ** The shape of the reachable states *)

Definition att {H} (ev : EventName) (em : Emitter H) : bool :=
  match handlers_for ev em with
  | [] => false
  | _ => true
  end.

Definition canon_req (s r e : bool) : Emitter TransportHandler :=
  (if s then [(evSocket, OnSocket)] else [])
  ++ (if r then [(evResponse, OnResponse)] else [])
  ++ (if e then [(evError, OnError)] else []).

Definition canon_socket (c : bool) : Emitter TransportHandler :=
  if c then [(evConnect, OnConnect)] else [].

Definition canon_data (d : bool) : Emitter TransportHandler :=
  if d then [(evError, OnDataError)] else [].

Definition canon_resolver (x y : bool) : Emitter ResolverHandler :=
  (if x then [(evResolve, ResolveFn)] else [])
  ++ (if y then [(evReject, RejectFn)] else []).

(** Each emitter holds at most the listeners that [request] registers on
    it, each at most once. *)
Definition canonical (st : State) : Prop :=
  em_req st
  = canon_req (att evSocket (em_req st)) (att evResponse (em_req st))
      (att evError (em_req st))
  /\ em_socket st = canon_socket (att evConnect (em_socket st))
  /\ em_data st = canon_data (att evError (em_data st))
  /\ em_resolver st
     = canon_resolver (att evResolve (em_resolver st))
         (att evReject (em_resolver st)).

(** What holds of the state of a request between two signals: the
    listeners are the ones [request] registered, no ['error'] is left
    scheduled, a listener that is still attached has not published its
    event, and a published failure has destroyed the request. *)
Record Inv (st : State) : Prop := mkInv {
  inv_canonical : canonical st;
  inv_pending : pending st = None;
  inv_socket_connect :
    att evSocket (em_req st) = true -> att evConnect (em_socket st) = false;
  inv_socket :
    att evSocket (em_req st) = true ->
    published SocketObtained (telemetry_log st) = false;
  inv_connect :
    att evSocket (em_req st) || att evConnect (em_socket st) = true ->
    published ConnectionEstablished (telemetry_log st) = false;
  inv_response :
    att evResponse (em_req st) = true ->
    published ResponseStreamReceived (telemetry_log st) = false;
  inv_error :
    att evError (em_req st) = true ->
    published RequestError (telemetry_log st) = false;
  inv_destroyed :
    destroyed st = None -> published RequestError (telemetry_log st) = false
}.

(** The promise and the record of its settlements agree: it is pending and
    was never settled, or it was settled once and holds that outcome. *)
Definition settled_once (st : State) : Prop :=
  match settlements st with
  | [] => promise st = Pending
  | [p] => promise st = p /\ p <> Pending
  | _ => False
  end.

(** A settled promise keeps its outcome. *)
Definition holds_outcome (p : PromiseState) (ss : list PromiseState)
    (st : State) : Prop :=
  promise st = p /\ settlements st = ss /\ p <> Pending.

(** No listener of the telemetry emitter throws; an absent emitter counts. *)
Definition quiet (telemetry : option Sink) : Prop :=
  forall sink, telemetry = Some sink -> forall l ev, sink l ev = None.

(** The body is one of the four variants: absent, string, Buffer, Readable. *)
Definition recognised (data : JsValue) : Prop :=
  match data with
  | JUndefined | JString _ | JBuffer _ | JReadable _ => True
  | _ => False
  end.

(** The signals that end a request: the transport's response and error,
    and the error of the body stream when the body is one. *)
Definition is_terminal (src : option nat) (sig : Signal) : bool :=
  match sig with
  | SigResponse _ | SigError _ => true
  | SigDataError _ => match src with Some _ => true | None => false end
  | _ => false
  end.

Definition is_failure (sig : Signal) : bool :=
  match sig with
  | SigError _ | SigDataError _ => true
  | _ => false
  end.

(** What a terminal signal settles the promise with. *)
Definition outcome_of (sig : Signal) : PromiseState :=
  match sig with
  | SigResponse res => Fulfilled (PRes res)
  | SigError e | SigDataError e => Rejected (PErr e)
  | _ => Pending
  end.

(** The outcome that the first terminal signal of a trace decides. *)
Definition first_outcome (src : option nat) (sigs : list Signal) : PromiseState :=
  match find (is_terminal src) sigs with
  | Some sig => outcome_of sig
  | None => Pending
  end.

(** The state with its telemetry log forgotten. *)
Definition erase (st : State) : State := with_telemetry_log [] st.

(** A request in flight: open, not destroyed, its promise pending, and the
    listeners that end it attached. *)
Record alive (st : State) : Prop := mkAlive {
  alive_opened : opened st = true;
  alive_destroyed : destroyed st = None;
  alive_promise : promise st = Pending;
  alive_response : att evResponse (em_req st) = true;
  alive_error : att evError (em_req st) = true;
  alive_resolve : att evResolve (em_resolver st) = true;
  alive_reject : att evReject (em_resolver st) = true;
  alive_data : source st <> None -> att evError (em_data st) = true
}.

(** What one signal does to a request: it publishes at most one event, the
    one of its stage and not published before; it publishes nothing on a
    destroyed request; a signal that is not a failure leaves the request
    and the error listeners as they are; and with a quiet telemetry emitter
    a terminal signal settles a request in flight, while any other signal
    leaves it in flight. *)
Record Delta (telemetry : option Sink) (sig : Signal) (st st' : State)
    : Prop := mkDelta {
  delta_log :
    telemetry_log st' = telemetry_log st
    \/ exists ev,
         telemetry_log st' = telemetry_log st ++ [ev]
         /\ publishes sig ev
         /\ published (ev_type ev) (telemetry_log st) = false;
  delta_frozen :
    destroyed st <> None ->
    telemetry_log st' = telemetry_log st /\ destroyed st' <> None;
  delta_source : source st' = source st;
  delta_opened : opened st' = opened st;
  delta_calm :
    is_failure sig = false ->
    destroyed st' = destroyed st
    /\ att evError (em_req st') = att evError (em_req st)
    /\ att evError (em_data st') = att evError (em_data st);
  delta_alive :
    quiet telemetry -> alive st ->
    if is_terminal (source st) sig then promise st' = outcome_of sig
    else alive st'
}.

(** ** Vocabulary of the further properties *)

Definition is_data_error (sig : Signal) : bool :=
  match sig with
  | SigDataError _ => true
  | _ => false
  end.

(** The signals before a request ends: the socket and its connection. *)
Definition is_progress (sig : Signal) : bool :=
  match sig with
  | SigSocket | SigConnect => true
  | _ => false
  end.

(** The two events that the synchronous part of [request] publishes
    (lines 92 and 154). *)
Definition is_synchronous (t : EventType) : bool :=
  match t with
  | RequestStreamInitialised | RequestStreamEnded => true
  | _ => false
  end.

(** The request exists and is not destroyed. *)
Definition live (st : State) : bool :=
  opened st && match destroyed st with Some _ => false | None => true end.

(** The signal finds a listener: on a live request, the [once] listener
    of its event is still attached; an error of the body stream is heard
    whenever the body is a stream. *)
Definition heard (sig : Signal) (st : State) : bool :=
  match sig with
  | SigSocket => live st && att evSocket (em_req st)
  | SigConnect => live st && att evConnect (em_socket st)
  | SigResponse _ => live st && att evResponse (em_req st)
  | SigError _ => live st && att evError (em_req st)
  | SigDataError _ => match source st with Some _ => true | None => false end
  end.

(** A request that can still fail has its ['error'] listener: as long as
    the request is not destroyed, and it is open or its body stream has its
    listener, the listener of line 120 is attached. *)
Definition guarded (st : State) : Prop :=
  destroyed st = None ->
  opened st || att evError (em_data st) = true ->
  att evError (em_req st) = true.

(** The ['connect'] listener is attached by the ['socket'] listener, after
    SocketObtained was handed over. *)
Definition socket_first (telemetry : option Sink) (st : State) : Prop :=
  (telemetry <> None -> att evConnect (em_socket st) = true ->
   published SocketObtained (telemetry_log st) = true)
  /\ (published ConnectionEstablished (telemetry_log st) = true ->
      published SocketObtained (telemetry_log st) = true).

(** Every event of kind [b] in the log has an event of kind [a] before it. *)
Definition precedes (a b : EventType) (log : list TelemetryEvent) : Prop :=
  forall l1 ev l2,
    log = l1 ++ ev :: l2 -> ev_type ev = b -> published a l1 = true.

(** No listener is attached to the request, to its socket or to the body
    stream, and no ['error'] is scheduled. *)
Definition deaf (st : State) : Prop :=
  em_req st = [] /\ em_socket st = [] /\ em_data st = [] /\ pending st = None.

(** The address that [buildUrl] (lines 165-166) answers with: a [URL]
    object is taken as it is, a path is resolved against the base address. *)
Definition resolves_to (new_URL : string -> option string -> option URL)
    (this : Client) (pathOrUrl : PathOrUrl) (url : URL) : Prop :=
  match pathOrUrl with
  | PUrl u => url = u
  | PPath path => new_URL path (Some (baseUrl this)) = Some url
  end.


(** The calls that hand the body over (lines 136-152). *)
Definition body_calls (data : JsValue) : list Effect :=
  match data with
  | JReadable id => [EOnce TData evError; EPipe id]
  | _ => [EEnd data]
  end.

(** The call handed no body over: it derived no content length, so that
    the options are the ones it was given; it did not settle the promise;
    and, when it returned, it ended the request with no chunk. *)
Definition sends_no_body (opts : RequestOptions) (r : CallResult) : Prop :=
  req_opts (state r) = opts
  /\ promise (state r) = Pending
  /\ (completion r = Returned ->
      exists url,
        effects (state r)
        = [EOpen url opts; ESetMaxListeners 5; EOnce TReq evSocket;
           EOnce TReq evResponse; EOnce TReq evError; EEnd JUndefined;
           EOnce TResolver evResolve; EOnce TResolver evReject]).

(** What else one signal does, for every telemetry emitter: the promise
    keeps its state or is settled, from pending, with the outcome of a
    terminal signal by a listener of the resolver; a destroyed request
    leaves the promise alone; a signal that is not heard changes nothing; a
    signal other than an error of the body stream spends its listener; no
    listener comes back to the resolver; and an exception leaves a listener
    only if a telemetry listener throws or an ['error'] finds no listener. *)
Record Footprint (telemetry : option Sink) (sig : Signal) (st st' : State)
    : Prop := mkFootprint {
  fp_promise :
    (promise st' = promise st /\ settlements st' = settlements st)
    \/ (promise st = Pending
        /\ promise st' = outcome_of sig
        /\ settlements st' = settlements st ++ [outcome_of sig]
        /\ is_terminal (source st) sig = true
        /\ (att evResolve (em_resolver st) = true
            \/ att evReject (em_resolver st) = true));
  fp_frozen :
    destroyed st <> None ->
    promise st' = promise st /\ settlements st' = settlements st;
  fp_deaf : guarded st -> heard sig st = false -> st' = st;
  fp_spent : is_data_error sig = false -> heard sig st' = false;
  fp_resolver :
    (att evResolve (em_resolver st') = true ->
     att evResolve (em_resolver st) = true)
    /\ (att evReject (em_resolver st') = true ->
        att evReject (em_resolver st) = true);
  fp_socket_first : socket_first telemetry st -> socket_first telemetry st';
  fp_guarded : guarded st -> guarded st';
  fp_data :
    is_data_error sig = false ->
    att evError (em_data st') = att evError (em_data st);
  fp_silent : telemetry = None -> telemetry_log st' = telemetry_log st;
  fp_uncaught :
    quiet telemetry -> guarded st ->
    (is_data_error sig = true -> source st <> None ->
     att evError (em_data st) = true) ->
    uncaught st' = uncaught st
}.

(** ** Predicates kept by every operation of the monad *)

(** [preserves P m]: running [m] from a state where [P] holds ends, with a
    value or an exception, in a state where [P] holds. *)
Definition preserves (P : State -> Prop) {A} (m : M A) : Prop :=
  forall st, P st -> P (snd (m st)).

(** [P] looks only at fields that the listeners change through [settle]:
    it survives every other update of the state. *)
Record Framed (P : State -> Prop) : Prop := mkFramed {
  fr_em_req : forall em st, P st -> P (with_em_req em st);
  fr_em_socket : forall em st, P st -> P (with_em_socket em st);
  fr_em_data : forall em st, P st -> P (with_em_data em st);
  fr_em_resolver : forall em st, P st -> P (with_em_resolver em st);
  fr_telemetry_log : forall l st, P st -> P (with_telemetry_log l st);
  fr_effects : forall l st, P st -> P (with_effects l st);
  fr_opened : forall b st, P st -> P (with_opened b st);
  fr_destroyed : forall d p st, P st -> P (with_destroyed d p st);
  fr_uncaught : forall l st, P st -> P (with_uncaught l st)
}.

(** ** Weakest preconditions *)

(** [wp m st Q]: [Q] holds of the result of running [m] from [st] and of
    the state it leaves. *)
Definition wp {A} (m : M A) (st : State) (Q : Result A -> State -> Prop)
    : Prop :=
  Q (fst (m st)) (snd (m st)).

(** * Properties *)

(** ** Symbolic evaluation *)

(** Unfolds the operations of the monad and the updates of the state, and
    splits on the answers of the telemetry emitter that the evaluation
    meets. *)
Ltac eval_M :=
  cbv beta iota zeta delta
    [bind ret throw modify effect once http_request telemetry_emit settle
     req_destroy emit invoke run_transport run_resolver deliver flush_destroy
     unless_destroyed step target get_em set_em
     req_em socket_em data_em resolver_em
     with_em_req with_em_socket with_em_data with_em_resolver with_promise
     with_telemetry_log with_effects with_opened with_destroyed with_uncaught
     em_req em_socket em_data em_resolver promise settlements settle_calls
     telemetry_log effects opened destroyed pending uncaught source req_opts
     init_state body_stream handlers_for remove_first EventName_eqb app fst snd
     state completion].

Ltac split_sink_eval :=
  repeat match goal with
    | |- context [match ?s ?l ?e with Some _ => _ | None => _ end] =>
        destruct (s l e) eqn:?; eval_M
    end.

Section Preservation.

Context {P : State -> Prop} (HP : Framed P).
Hypothesis settle_ok : forall p, p <> Pending -> preserves P (settle p).

Lemma preserves_ret {A} (a : A) : preserves P (ret a).
Proof. intros st H. exact H. Qed.

Lemma preserves_throw {A} v : preserves P (@throw A v).
Proof. intros st H. exact H. Qed.

Lemma preserves_bind {A B} (m : M A) (f : A -> M B) :
  preserves P m -> (forall a, preserves P (f a)) -> preserves P (bind m f).
Proof.
  intros Hm Hf st H. unfold bind. specialize (Hm st H).
  destruct (m st) as [[a|v] st']; cbn in *; [apply Hf|]; exact Hm.
Qed.

Lemma preserves_effect e : preserves P (effect e).
Proof. intros st H. apply (fr_effects _ HP), H. Qed.

Lemma lens_framed (L : Lens TransportHandler) :
  L = req_em \/ L = socket_em \/ L = data_em ->
  forall em st, P st -> P (set_em L em st).
Proof.
  intros [->|[->| ->]] em st Hst; cbn;
    [apply (fr_em_req _ HP)|apply (fr_em_socket _ HP)|apply (fr_em_data _ HP)];
    exact Hst.
Qed.

Lemma preserves_once {H} (L : Lens H) ev h :
  (forall em st, P st -> P (set_em L em st)) -> preserves P (once L ev h).
Proof.
  intros HL. apply preserves_bind; [apply preserves_effect|].
  intros _ st Hst. apply HL, Hst.
Qed.

Lemma preserves_invoke {H} (L : Lens H) run ev arg hs :
  (forall em st, P st -> P (set_em L em st)) ->
  (forall h, preserves P (run h arg)) ->
  preserves P (invoke L run ev arg hs).
Proof.
  intros HL Hrun. induction hs as [|h hs IH]; cbn [invoke].
  - apply preserves_ret.
  - apply preserves_bind; [intros st Hst; apply HL, Hst|].
    intros _. apply preserves_bind; [apply Hrun|]. intros _. exact IH.
Qed.

Lemma preserves_emit {H} (L : Lens H) run ev arg :
  (forall em st, P st -> P (set_em L em st)) ->
  (forall h, preserves P (run h arg)) ->
  preserves P (emit L run ev arg).
Proof.
  intros HL Hrun st Hst. unfold emit.
  destruct (handlers_for ev (get_em L st)) as [|h hs] eqn:E.
  - destruct ev; exact Hst.
  - apply (preserves_bind (invoke L run ev arg (h :: hs)) (fun _ => ret true));
      [apply preserves_invoke; assumption|intros _; apply preserves_ret|exact Hst].
Qed.

Lemma preserves_telemetry_emit telemetry ev :
  preserves P (telemetry_emit telemetry ev).
Proof.
  intros st Hst. unfold telemetry_emit. destruct telemetry as [sink|]; [|exact Hst].
  destruct (sink _ _); cbn; apply (fr_telemetry_log _ HP), Hst.
Qed.

Lemma preserves_req_destroy cause : preserves P (req_destroy cause).
Proof.
  apply preserves_bind; [apply preserves_effect|].
  intros _ st Hst. cbn. destruct (destroyed st); [exact Hst|].
  apply (fr_destroyed _ HP), Hst.
Qed.

Lemma preserves_http_request url reqOpts : preserves P (http_request url reqOpts).
Proof.
  apply preserves_bind; [apply preserves_effect|].
  intros _ st Hst. apply (fr_opened _ HP), Hst.
Qed.

Lemma preserves_run_resolver h arg : preserves P (run_resolver h arg).
Proof. destruct h; apply settle_ok; discriminate. Qed.

Lemma preserves_emit_resolver ev arg :
  preserves P (emit resolver_em run_resolver ev arg).
Proof.
  apply preserves_emit.
  - intros em st Hst. apply (fr_em_resolver _ HP), Hst.
  - intros h. apply preserves_run_resolver.
Qed.

Lemma preserves_run_transport telemetry h arg :
  preserves P (run_transport telemetry h arg).
Proof.
  destruct h; cbn [run_transport];
    repeat first
      [ apply preserves_telemetry_emit
      | apply preserves_req_destroy
      | apply preserves_emit_resolver
      | apply preserves_ret
      | apply preserves_once; apply lens_framed; tauto
      | apply preserves_bind; [|intros ?] ].
Qed.

Lemma preserves_emit_transport (L : Lens TransportHandler) telemetry ev arg :
  L = req_em \/ L = socket_em \/ L = data_em ->
  preserves P (emit L (run_transport telemetry) ev arg).
Proof.
  intros HL. apply preserves_emit; [apply lens_framed, HL|].
  intros h. apply preserves_run_transport.
Qed.

Lemma deliver_ok {A} (m : M A) st : preserves P m -> P st -> P (deliver m st).
Proof.
  intros Hm Hst. unfold deliver. specialize (Hm st Hst).
  destruct (m st) as [[a|v] st']; cbn in *; [exact Hm|].
  apply (fr_uncaught _ HP), Hm.
Qed.

Lemma flush_destroy_ok telemetry st : P st -> P (flush_destroy telemetry st).
Proof.
  intros Hst. unfold flush_destroy. destruct (pending st); [|exact Hst].
  apply deliver_ok; [apply preserves_emit_transport; tauto|].
  apply (fr_destroyed _ HP), Hst.
Qed.

Lemma step_ok telemetry sig st : P st -> P (step telemetry sig st).
Proof.
  intros Hst. unfold step. apply flush_destroy_ok.
  destruct sig; unfold unless_destroyed;
    try (destruct (destroyed st); [exact Hst|destruct (opened st); [|exact Hst]]);
    try (destruct (source st); [|exact Hst]);
    apply deliver_ok; try exact Hst; apply preserves_emit_transport; tauto.
Qed.

Lemma run_ok telemetry sigs st : P st -> P (run telemetry sigs st).
Proof.
  revert st. induction sigs as [|sig sigs IH]; intros st Hst; cbn; [exact Hst|].
  apply IH, step_ok, Hst.
Qed.

End Preservation.

(** ** The promise *)

Lemma settled_once_framed : Framed settled_once.
Proof. constructor; intros; destruct st; exact H. Qed.

Lemma settled_once_settle p : p <> Pending -> preserves settled_once (settle p).
Proof.
  intros Hp st. destruct st as [? ? ? ? pr ss ? ? ? ? ? ? ? ? ?].
  unfold settled_once, settle, modify. cbn.
  destruct ss as [|q [|q' l]]; intros H.
  - subst pr. cbn. split; [reflexivity|exact Hp].
  - destruct H as [H Hq]. subst pr. destruct q; cbn; try congruence;
      (split; [reflexivity|discriminate]).
  - destruct H.
Qed.

Lemma holds_outcome_framed p ss : Framed (holds_outcome p ss).
Proof. constructor; intros; destruct st; exact H. Qed.

Lemma holds_outcome_settle p ss q : preserves (holds_outcome p ss) (settle q).
Proof.
  intros st. destruct st as [? ? ? ? pr ss' ? ? ? ? ? ? ? ? ?].
  unfold holds_outcome, settle, modify. cbn. intros (Hp & Hs & Hn).
  subst pr ss'. destruct p; cbn; try congruence; auto.
Qed.

(** The options object is not touched after the content length is merged. *)
Lemma req_opts_framed o : Framed (fun st => req_opts st = o).
Proof. constructor; intros; destruct st; exact H. Qed.

Lemma req_opts_settle o p : preserves (fun st => req_opts st = o) (settle p).
Proof.
  intros st H. destruct st as [? ? ? ? pr ? ? ? ? ? ? ? ? ? ?].
  unfold settle, modify. cbn in *. destruct pr; exact H.
Qed.

(** ** Symbolic execution of the listeners *)

Lemma wp_ret {A} (a : A) st Q : Q (Ok a) st -> wp (ret a) st Q.
Proof. exact (fun H => H). Qed.

Lemma wp_throw {A} v st (Q : Result A -> State -> Prop) :
  Q (Throw v) st -> wp (throw v) st Q.
Proof. exact (fun H => H). Qed.

Lemma wp_modify f st Q : Q (Ok tt) (f st) -> wp (modify f) st Q.
Proof. exact (fun H => H). Qed.

Lemma wp_bind {A B} (m : M A) (f : A -> M B) st Q :
  wp m st (fun r st' =>
             match r with
             | Ok a => wp (f a) st' Q
             | Throw v => Q (Throw v) st'
             end) ->
  wp (bind m f) st Q.
Proof. unfold wp, bind. destruct (m st) as [[a|v] st']; exact (fun H => H). Qed.

Lemma wp_telemetry_emit telemetry ev st Q :
  match telemetry with
  | None => Q (Ok tt) st
  | Some sink =>
      match sink (telemetry_log st) ev with
      | Some v => Q (Throw v) (with_telemetry_log (telemetry_log st ++ [ev]) st)
      | None => Q (Ok tt) (with_telemetry_log (telemetry_log st ++ [ev]) st)
      end
  end ->
  wp (telemetry_emit telemetry ev) st Q.
Proof.
  unfold wp, telemetry_emit. destruct telemetry as [sink|]; [|exact (fun H => H)].
  destruct (sink _ _); exact (fun H => H).
Qed.

Lemma wp_emit {H} (L : Lens H) run ev arg st Q :
  match handlers_for ev (get_em L st) with
  | [] => Q (match ev with evError => Throw arg | _ => Ok false end) st
  | hs =>
      wp (invoke L run ev arg hs) st
        (fun r st' =>
           match r with
           | Ok _ => Q (Ok true) st'
           | Throw v => Q (Throw v) st'
           end)
  end ->
  wp (emit L run ev arg) st Q.
Proof.
  unfold wp at 2. unfold emit.
  destruct (handlers_for ev (get_em L st)) as [|h hs].
  - destruct ev; exact (fun H => H).
  - intros Hw. apply (wp_bind (invoke L run ev arg (h :: hs)) (fun _ => ret true)).
    unfold wp in *. destruct (invoke _ _ _ _ _ _) as [[a|v] st']; exact Hw.
Qed.

Lemma deliver_wp {A} (m : M A) st (P : State -> Prop) :
  wp m st (fun r st' =>
             match r with
             | Ok _ => P st'
             | Throw v => P (with_uncaught (uncaught st' ++ [v]) st')
             end) ->
  P (deliver m st).
Proof. unfold wp, deliver. destruct (m st) as [[a|v] st']; exact (fun H => H). Qed.

Lemma handlers_for_canon_req ev s r e :
  handlers_for ev (canon_req s r e)
  = match ev with
    | evSocket => if s then [OnSocket] else []
    | evResponse => if r then [OnResponse] else []
    | evError => if e then [OnError] else []
    | _ => []
    end.
Proof. destruct ev, s, r, e; reflexivity. Qed.

Lemma remove_first_canon_req ev s r e :
  remove_first ev (canon_req s r e)
  = match ev with
    | evSocket => canon_req false r e
    | evResponse => canon_req s false e
    | evError => canon_req s r false
    | _ => canon_req s r e
    end.
Proof. destruct ev, s, r, e; reflexivity. Qed.

Lemma handlers_for_canon_socket ev c :
  handlers_for ev (canon_socket c)
  = match ev with evConnect => if c then [OnConnect] else [] | _ => [] end.
Proof. destruct ev, c; reflexivity. Qed.

Lemma remove_first_canon_socket ev c :
  remove_first ev (canon_socket c)
  = match ev with evConnect => canon_socket false | _ => canon_socket c end.
Proof. destruct ev, c; reflexivity. Qed.

Lemma handlers_for_canon_data ev d :
  handlers_for ev (canon_data d)
  = match ev with evError => if d then [OnDataError] else [] | _ => [] end.
Proof. destruct ev, d; reflexivity. Qed.

Lemma remove_first_canon_data ev d :
  remove_first ev (canon_data d)
  = match ev with evError => canon_data false | _ => canon_data d end.
Proof. destruct ev, d; reflexivity. Qed.

Lemma handlers_for_canon_resolver ev x y :
  handlers_for ev (canon_resolver x y)
  = match ev with
    | evResolve => if x then [ResolveFn] else []
    | evReject => if y then [RejectFn] else []
    | _ => []
    end.
Proof. destruct ev, x, y; reflexivity. Qed.

Lemma remove_first_canon_resolver ev x y :
  remove_first ev (canon_resolver x y)
  = match ev with
    | evResolve => canon_resolver false y
    | evReject => canon_resolver x false
    | _ => canon_resolver x y
    end.
Proof. destruct ev, x, y; reflexivity. Qed.

Lemma canon_socket_once : canon_socket false ++ [(evConnect, OnConnect)] = canon_socket true.
Proof. reflexivity. Qed.

Lemma att_canon_req ev s r e :
  att ev (canon_req s r e)
  = match ev with evSocket => s | evResponse => r | evError => e | _ => false end.
Proof. destruct ev, s, r, e; reflexivity. Qed.

Lemma att_canon_socket ev c :
  att ev (canon_socket c) = match ev with evConnect => c | _ => false end.
Proof. destruct ev, c; reflexivity. Qed.

Lemma att_canon_data ev d :
  att ev (canon_data d) = match ev with evError => d | _ => false end.
Proof. destruct ev, d; reflexivity. Qed.

Lemma att_canon_resolver ev x y :
  att ev (canon_resolver x y)
  = match ev with evResolve => x | evReject => y | _ => false end.
Proof. destruct ev, x, y; reflexivity. Qed.

Lemma published_snoc t log ev :
  published t (log ++ [ev]) = published t log || EventType_eqb (ev_type ev) t.
Proof. unfold published. rewrite existsb_app. cbn. rewrite orb_false_r. reflexivity. Qed.

Ltac norm_proj :=
  cbv beta iota delta
    [target get_em set_em req_em socket_em data_em resolver_em
     with_em_req with_em_socket with_em_data with_em_resolver with_promise
     with_telemetry_log with_effects with_opened with_destroyed with_uncaught
     em_req em_socket em_data em_resolver promise settlements settle_calls
     telemetry_log effects opened destroyed pending uncaught source req_opts].

Ltac rw_handlers :=
  first
    [ rewrite handlers_for_canon_req
    | rewrite handlers_for_canon_resolver
    | rewrite handlers_for_canon_socket
    | rewrite handlers_for_canon_data
    | idtac ];
  cbv beta iota; cbn [invoke].

Ltac rw_update :=
  lazymatch goal with
  | |- context [@remove_first] =>
      first
        [ rewrite remove_first_canon_req
        | rewrite remove_first_canon_resolver
        | rewrite remove_first_canon_socket
        | rewrite remove_first_canon_data ];
      cbv beta iota
  | |- context [canon_socket false ++ _] => rewrite canon_socket_once
  | _ => idtac
  end.

(** One step of the execution of a monadic computation under [wp]. *)
Ltac wp_step :=
  lazymatch goal with
  | |- wp (bind _ _) _ _ => apply wp_bind
  | |- wp (ret _) _ _ => apply wp_ret; norm_proj
  | |- wp (throw _) _ _ => apply wp_throw; norm_proj
  | |- wp (modify _) _ _ => apply wp_modify; norm_proj; rw_update
  | |- wp (telemetry_emit _ _) _ _ => apply wp_telemetry_emit; norm_proj
  | |- wp (emit _ _ _ _) _ _ => apply wp_emit; norm_proj; rw_handlers
  | |- wp (effect _) _ _ => unfold effect
  | |- wp (once _ _ _) _ _ => unfold once
  | |- wp (settle _) _ _ => unfold settle
  | |- wp (req_destroy _) _ _ => unfold req_destroy
  | |- wp (http_request _ _) _ _ => unfold http_request
  | |- wp (run_transport _ _ _) _ _ => cbn [run_transport]
  | |- wp (run_resolver _ _) _ _ => cbn [run_resolver]
  end.

Ltac use_flags :=
  repeat match goal with
    | H : true = true -> _ |- _ => specialize (H eq_refl)
    | H : false = true -> _ |- _ => clear H
    | H : None = None -> _ |- _ => specialize (H eq_refl)
    | H : Some _ = None -> _ |- _ => clear H
    | H : ?s = true -> true = false |- _ =>
        destruct s; [discriminate (H eq_refl)|clear H]
    | H : ?a || true = true -> _ |- _ => rewrite orb_true_r in H
    | H : ?a || false = true -> _ |- _ => rewrite orb_false_r in H
    | H : ?a || ?b = true -> _ |- _ => progress cbn [orb] in H
    end.

Ltac att_norm :=
  cbn [em_req em_socket em_data em_resolver promise settlements settle_calls
       telemetry_log effects opened destroyed pending uncaught source req_opts];
  rewrite ?att_canon_req, ?att_canon_socket, ?att_canon_data, ?att_canon_resolver.

Ltac att_norm_in H :=
  cbn [em_req em_socket em_data em_resolver promise settlements settle_calls
       telemetry_log effects opened destroyed pending uncaught source req_opts] in H;
  rewrite ?att_canon_req, ?att_canon_socket, ?att_canon_data, ?att_canon_resolver in H.

Ltac close_bool :=
  rewrite ?orb_false_r, ?orb_true_r;
  intros;
  rewrite ?published_snoc;
  cbn [EventType_eqb ev_type orb andb];
  rewrite ?orb_false_r;
  first [ reflexivity | assumption | discriminate | congruence | auto; fail ].

Ltac close_inv :=
  constructor; att_norm;
  [ unfold canonical; att_norm; repeat split; reflexivity
  | close_bool .. ].

Ltac close_log :=
  first
    [ left; reflexivity
    | right; eexists; split; [reflexivity|]; split; [cbn; auto|];
      cbn [ev_type]; assumption ].

Ltac close_alive :=
  let Hq := fresh "Hq" in let Ha := fresh "Ha" in
  intros Hq Ha; destruct Ha as [A1 A2 A3 A4 A5 A6 A7 A8];
  att_norm_in A1; att_norm_in A2; att_norm_in A3; att_norm_in A4;
  att_norm_in A5; att_norm_in A6; att_norm_in A7; att_norm_in A8;
  cbn [is_terminal outcome_of];
  try discriminate;
  try match goal with
    | Hs : ?sink ?l ?ev = Some _ |- _ =>
        rewrite (Hq sink eq_refl l ev) in Hs; discriminate Hs
    end;
  try (specialize (A8 ltac:(discriminate)); try discriminate A8);
  first
    [ reflexivity
    | constructor; att_norm;
      first [reflexivity | assumption | intros; assumption | intros; congruence ] ].

Ltac close_delta :=
  constructor; att_norm;
  [ close_log
  | intros Hd; first [congruence | split; [reflexivity|congruence]]
  | reflexivity
  | reflexivity
  | cbn [is_failure]; intros Hf; first [discriminate Hf | repeat split; reflexivity]
  | close_alive ].

Ltac close_case HI0 :=
  use_flags;
  split; [ first [exact HI0 | close_inv] | close_delta ].

Ltac deliver_head :=
  lazymatch goal with
  | |- context [deliver ?m ?st] => pattern (deliver m st); apply deliver_wp
  end.

Ltac split_sink :=
  lazymatch goal with
  | |- match ?s ?l ?e with Some _ => _ | None => _ end =>
      destruct (s l e) as [?|] eqn:?; norm_proj
  end.

(** Runs one signal through its listeners, splitting on what the telemetry
    emitter answers. *)
Ltac exec :=
  repeat first
    [ wp_step
    | split_sink
    | deliver_head
    | progress (unfold flush_destroy; norm_proj) ].

Ltac quiet_absurd Hq :=
  match goal with
  | Hs : ?sink ?l ?ev = Some _ |- _ =>
      rewrite (Hq sink eq_refl l ev) in Hs; discriminate Hs
  end.

(** Names the fields of a state that satisfies [Inv] and puts its emitters
    in canonical form. *)
Ltac canon_state st HI0 :=
  destruct st as [rq sk dt rs pr ss n log eff op de pe unc src opts];
  pose proof HI0 as [(Hc1 & Hc2 & Hc3 & Hc4) Hp H1 H2 H3 H4 H5 H6];
  cbn [em_req em_socket em_data em_resolver pending telemetry_log destroyed] in *;
  subst pe;
  set (s := att evSocket rq) in *; set (r := att evResponse rq) in *;
  set (e := att evError rq) in *; set (c := att evConnect sk) in *;
  set (d := att evError dt) in *; set (x := att evResolve rs) in *;
  set (y := att evReject rs) in *;
  clearbody s r e c d x y; subst rq sk dt rs.

(** The invariant is kept by every signal, for every telemetry emitter,
    and the signal changes the request as [Delta] says.  The proof runs the
    listeners of each signal on a state in canonical form, case by case on
    the listeners that are attached. *)
Lemma step_spec telemetry sig st :
  Inv st ->
  Inv (step telemetry sig st) /\ Delta telemetry sig st (step telemetry sig st).
Proof.
  intros HI0. canon_state st HI0.
  destruct sig as [| |res|err|err]; unfold step, unless_destroyed;
    cbn [destroyed opened source].
  - (* socket *)
    destruct de as [cause|]; [exec; close_case HI0|].
    destruct op; [|exec; close_case HI0].
    destruct s; [rewrite (H1 eq_refl) in *|]; destruct telemetry as [sink|];
      exec; close_case HI0.
  - (* connect *)
    destruct de as [cause|]; [exec; close_case HI0|].
    destruct op; [|exec; close_case HI0].
    destruct c; destruct telemetry as [sink|]; exec; close_case HI0.
  - (* response *)
    destruct de as [cause|]; [exec; close_case HI0|].
    destruct op; [|exec; close_case HI0].
    destruct r; [|exec; close_case HI0].
    destruct x; [destruct pr|]; destruct telemetry as [sink|];
      exec; close_case HI0.
  - (* error *)
    destruct de as [cause|]; [exec; close_case HI0|].
    destruct op; [|exec; close_case HI0].
    destruct e; [|exec; close_case HI0].
    destruct y; [destruct pr|]; destruct telemetry as [sink|];
      exec; close_case HI0.
  - (* error of the body stream *)
    destruct src as [id|]; [|exec; close_case HI0].
    destruct d; [|exec; close_case HI0].
    destruct de as [cause|]; [exec; close_case HI0|].
    destruct e; [|exec; close_case HI0].
    destruct y; [destruct pr|]; destruct telemetry as [sink|];
      exec; close_case HI0.
Qed.

(** ** The footprint of a signal *)

(** The tactics that close the fields of [Footprint] on a state in
    canonical form, after the listeners have run. *)
Ltac fp_norm :=
  unfold heard, live;
  cbn [is_data_error is_terminal outcome_of];
  att_norm;
  cbn [andb orb].

Ltac close_promise :=
  first
    [ left; split; reflexivity
    | right; repeat split;
      first [reflexivity | left; reflexivity | right; reflexivity] ].

Ltac close_socket_first :=
  unfold socket_first; att_norm;
  let I1 := fresh "I1" in let I2 := fresh "I2" in
  intros [I1 I2]; split; intros;
  rewrite ?published_snoc in *;
  cbn [EventType_eqb ev_type orb andb] in *;
  rewrite ?orb_false_r, ?orb_true_r in *;
  first
    [ reflexivity | discriminate | congruence
    | apply I2; assumption
    | apply I1; [discriminate|reflexivity]
    | apply I1; assumption
    | auto; fail ].

Ltac guarded_absurd Hg :=
  rewrite ?orb_true_r, ?orb_false_r in Hg; cbn [orb] in Hg;
  discriminate (Hg eq_refl eq_refl).

Ltac close_guarded :=
  unfold guarded; att_norm; intros;
  first [reflexivity | discriminate | congruence | auto; fail].

Ltac close_uncaught :=
  let Hq := fresh "Hq" in let Hg := fresh "Hg" in let Hd := fresh "Hd" in
  unfold guarded; att_norm; cbn [is_data_error];
  intros Hq Hg Hd;
  try quiet_absurd Hq;
  first
    [ reflexivity
    | guarded_absurd Hg
    | discriminate (Hd eq_refl ltac:(discriminate)) ].

Ltac close_spent :=
  rewrite ?andb_false_r, ?andb_true_r; cbn [andb];
  repeat match goal with
    | |- context [andb ?a _] => is_var a; destruct a; cbn [andb]
    end;
  reflexivity.

Ltac close_footprint :=
  constructor; fp_norm;
  [ close_promise
  | intros Hd; first [congruence | split; reflexivity]
  | unfold guarded; att_norm; intros Hg Hh;
    first [discriminate Hh | reflexivity | guarded_absurd Hg]
  | intros Hs; first [discriminate Hs | close_spent]
  | split; intros Hx; first [exact Hx | discriminate Hx]
  | close_socket_first
  | close_guarded
  | intros Hs; first [discriminate Hs | reflexivity]
  | intros Ht; first [reflexivity | discriminate Ht]
  | close_uncaught ].

(** Every signal leaves the footprint that [Footprint] describes; the proof
    runs the listeners as in [step_spec]. *)
Lemma step_footprint telemetry sig st :
  Inv st -> Footprint telemetry sig st (step telemetry sig st).
Proof.
  intros HI0. canon_state st HI0.
  destruct sig as [| |res|err|err]; unfold step, unless_destroyed;
    cbn [destroyed opened source].
  - (* socket *)
    destruct de as [cause|]; [exec; use_flags; close_footprint|].
    destruct op; [|exec; use_flags; close_footprint].
    destruct s; [rewrite (H1 eq_refl) in *|]; destruct telemetry as [sink|];
      exec; use_flags; close_footprint.
  - (* connect *)
    destruct de as [cause|]; [exec; use_flags; close_footprint|].
    destruct op; [|exec; use_flags; close_footprint].
    destruct c; destruct telemetry as [sink|]; exec; use_flags; close_footprint.
  - (* response *)
    destruct de as [cause|]; [exec; use_flags; close_footprint|].
    destruct op; [|exec; use_flags; close_footprint].
    destruct r; [|exec; use_flags; close_footprint].
    destruct x; [destruct pr|]; destruct telemetry as [sink|];
      exec; use_flags; close_footprint.
  - (* error *)
    destruct de as [cause|]; [exec; use_flags; close_footprint|].
    destruct op; [|exec; use_flags; close_footprint].
    destruct e; [|exec; use_flags; close_footprint].
    destruct y; [destruct pr|]; destruct telemetry as [sink|];
      exec; use_flags; close_footprint.
  - (* error of the body stream *)
    destruct src as [id|]; [|exec; use_flags; close_footprint].
    destruct d; [|exec; use_flags; close_footprint].
    destruct de as [cause|]; [exec; use_flags; close_footprint|].
    destruct e; [|exec; use_flags; close_footprint].
    destruct y; [destruct pr|]; destruct telemetry as [sink|];
      exec; use_flags; close_footprint.
Qed.

(** ** Traces *)

Lemma step_Inv telemetry sig st : Inv st -> Inv (step telemetry sig st).
Proof. intros H. apply step_spec, H. Qed.

Lemma step_Delta telemetry sig st :
  Inv st -> Delta telemetry sig st (step telemetry sig st).
Proof. intros H. apply step_spec, H. Qed.

Lemma run_cons telemetry sig sigs st :
  run telemetry (sig :: sigs) st = run telemetry sigs (step telemetry sig st).
Proof. reflexivity. Qed.

Lemma run_Inv telemetry sigs st : Inv st -> Inv (run telemetry sigs st).
Proof.
  revert st. induction sigs as [|sig sigs IH]; intros st H; cbn; [exact H|].
  apply IH, step_Inv, H.
Qed.

Lemma run_app telemetry l1 l2 st :
  run telemetry (l1 ++ l2) st = run telemetry l2 (run telemetry l1 st).
Proof. unfold run. apply fold_left_app. Qed.

(** A destroyed request publishes nothing more. *)
Lemma run_frozen telemetry sigs st :
  Inv st -> destroyed st <> None ->
  telemetry_log (run telemetry sigs st) = telemetry_log st
  /\ destroyed (run telemetry sigs st) <> None.
Proof.
  revert st. induction sigs as [|sig sigs IH]; intros st HI Hd; [auto|].
  rewrite run_cons.
  destruct (delta_frozen _ _ _ _ (step_Delta telemetry sig st HI) Hd) as [Hl Hd'].
  destruct (IH _ (step_Inv telemetry sig st HI) Hd') as [Hl' Hd''].
  split; [congruence|exact Hd''].
Qed.

Lemma publishes_stage sig ev :
  publishes sig ev -> stage (ev_type ev) = signal_stage sig.
Proof. unfold publishes. destruct sig, (ev_type ev); cbn; tauto. Qed.


Lemma EventType_eqb_eq a b : EventType_eqb a b = true <-> a = b.
Proof. destruct a, b; cbn; split; congruence. Qed.

Lemma published_false t log :
  published t log = false -> Forall (fun ev => ev_type ev <> t) log.
Proof.
  unfold published. induction log as [|ev log IH]; cbn; intros H; constructor.
  - apply orb_false_iff in H as [H _]. intros E. apply EventType_eqb_eq in E. congruence.
  - apply IH. apply orb_false_iff in H as [_ H]. exact H.
Qed.





Lemma run_first_outcome telemetry sigs : forall st,
  quiet telemetry -> Inv st -> alive st ->
  promise (run telemetry sigs st) = first_outcome (source st) sigs.
Proof.
  induction sigs as [|sig sigs IH]; intros st Hq HI Ha.
  - apply (alive_promise _ Ha).
  - rewrite run_cons.
    pose proof (step_Delta telemetry sig st HI) as D.
    pose proof (delta_alive _ _ _ _ D Hq Ha) as Hstep.
    unfold first_outcome. cbn [find].
    destruct (is_terminal (source st) sig) eqn:Et.
    + assert (Hh : holds_outcome (outcome_of sig) (settlements (step telemetry sig st))
                     (step telemetry sig st)).
      { split; [exact Hstep|split; [reflexivity|]].
        destruct sig; cbn in Et |- *; discriminate. }
      apply (run_ok (holds_outcome_framed _ _)
               (fun p _ => holds_outcome_settle _ _ p) telemetry sigs) in Hh.
      apply Hh.
    + rewrite (IH _ Hq (step_Inv telemetry sig st HI) Hstep).
      rewrite (delta_source _ _ _ _ D). reflexivity.
Qed.

Lemma run_calm telemetry sigs : forall st,
  Inv st -> Forall (fun sig => is_failure sig = false) sigs ->
  destroyed (run telemetry sigs st) = destroyed st
  /\ att evError (em_req (run telemetry sigs st)) = att evError (em_req st)
  /\ att evError (em_data (run telemetry sigs st)) = att evError (em_data st)
  /\ source (run telemetry sigs st) = source st
  /\ opened (run telemetry sigs st) = opened st.
Proof.
  induction sigs as [|sig sigs IH]; intros st HI Hc; [cbn; auto|].
  rewrite run_cons.
  inversion Hc as [|? ? Hsig Hc']; subst.
  pose proof (step_Delta telemetry sig st HI) as D.
  destruct (delta_calm _ _ _ _ D Hsig) as (E1 & E2 & E3).
  destruct (IH _ (step_Inv telemetry sig st HI) Hc') as (F1 & F2 & F3 & F4 & F5).
  rewrite F1, F2, F3, F4, F5, E1, E2, E3, (delta_source _ _ _ _ D), (delta_opened _ _ _ _ D).
  auto.
Qed.

(** The error of the body stream takes the path of a transport error. *)
Lemma source_error_step telemetry err st :
  Inv st -> opened st = true -> destroyed st = None ->
  att evError (em_req st) = true -> att evError (em_data st) = true ->
  source st <> None ->
  let a := step telemetry (SigDataError err) st in
  let b := step telemetry (SigError err) st in
  destroyed a = Some (PErr err)
  /\ In (EDestroy (PErr err)) (effects a)
  /\ telemetry_log a = telemetry_log b
  /\ promise a = promise b
  /\ settlements a = settlements b
  /\ (telemetry <> None ->
      telemetry_log a = telemetry_log st ++ [mkEvent RequestError None (PErr err)]).
Proof.
  intros HI0. canon_state st HI0.
  att_norm. intros -> -> -> -> Hsrc. destruct src as [id|]; [clear Hsrc|congruence].
  cbv zeta. unfold step, unless_destroyed; cbn [destroyed opened source].
  destruct y, pr; destruct telemetry as [sink|]; exec; att_norm;
    repeat split; try reflexivity; try congruence;
    rewrite ?in_app_iff; cbn [In]; auto.
Qed.

(** With a quiet emitter, a step is the step without emitter, up to the
    telemetry log. *)
Lemma erase_step sink sig st :
  quiet (Some sink) -> Inv st ->
  erase (step (Some sink) sig st) = step None sig (erase st).
Proof.
  intros Hq HI0. canon_state st HI0. unfold erase at 2.
  destruct sig as [| |res|err|err]; unfold step, unless_destroyed;
    norm_proj; cbn [destroyed opened source].
  - destruct de as [cause|]; [exec; unfold erase; reflexivity|].
    destruct op; [|exec; unfold erase; reflexivity].
    destruct s; [rewrite (H1 eq_refl) in *|]; exec; try quiet_absurd Hq; unfold erase; reflexivity.
  - destruct de as [cause|]; [exec; unfold erase; reflexivity|].
    destruct op; [|exec; unfold erase; reflexivity].
    destruct c; exec; try quiet_absurd Hq; unfold erase; reflexivity.
  - destruct de as [cause|]; [exec; unfold erase; reflexivity|].
    destruct op; [|exec; unfold erase; reflexivity].
    destruct r; [|exec; unfold erase; reflexivity].
    destruct x; [destruct pr|]; exec; try quiet_absurd Hq; unfold erase; reflexivity.
  - destruct de as [cause|]; [exec; unfold erase; reflexivity|].
    destruct op; [|exec; unfold erase; reflexivity].
    destruct e; [|exec; unfold erase; reflexivity].
    destruct y; [destruct pr|]; exec; try quiet_absurd Hq; unfold erase; reflexivity.
  - destruct src as [id|]; [|exec; unfold erase; reflexivity].
    destruct d; [|exec; unfold erase; reflexivity].
    destruct de as [cause|]; [exec; unfold erase; reflexivity|].
    destruct e; [|exec; unfold erase; reflexivity].
    destruct y; [destruct pr|]; exec; try quiet_absurd Hq; unfold erase; reflexivity.
Qed.

Lemma erase_run sink sigs : forall st,
  quiet (Some sink) -> Inv st ->
  erase (run (Some sink) sigs st) = run None sigs (erase st).
Proof.
  induction sigs as [|sig sigs IH]; intros st Hq HI; [reflexivity|].
  rewrite !run_cons, IH by (auto using step_Inv). rewrite erase_step by assumption.
  reflexivity.
Qed.

Lemma failure_last_snoc log ev :
  failure_last log -> published RequestError log = false ->
  failure_last (log ++ [ev]).
Proof.
  intros Hl Hp l1 x l2 E Hx.
  destruct l2 as [|y l2] using rev_ind; [reflexivity|]. exfalso. clear IHl2.
  change (l1 ++ x :: l2 ++ [y]) with (l1 ++ (x :: l2) ++ [y]) in E.
  rewrite app_assoc in E. apply app_inj_tail in E as [E _]. subst log.
  apply published_false in Hp. apply Forall_app in Hp as [_ Hp].
  inversion Hp; subst. contradiction.
Qed.

Lemma step_failure_last telemetry sig st :
  Inv st -> failure_last (telemetry_log st) ->
  failure_last (telemetry_log (step telemetry sig st)).
Proof.
  intros HI Hl. pose proof (step_Delta telemetry sig st HI) as D.
  destruct (delta_log _ _ _ _ D) as [E|(ev & E & _ & _)]; rewrite E; [exact Hl|].
  apply failure_last_snoc; [exact Hl|]. apply (inv_destroyed _ HI).
  destruct (destroyed st) eqn:Ed; [|reflexivity]. exfalso.
  destruct (delta_frozen _ _ _ _ D) as [E' _]; [rewrite Ed; discriminate|].
  rewrite E' in E. apply (f_equal (@length _)) in E. rewrite length_app in E. cbn in E. lia.
Qed.

Lemma run_failure_last telemetry sigs : forall st,
  Inv st -> failure_last (telemetry_log st) ->
  failure_last (telemetry_log (run telemetry sigs st)).
Proof.
  induction sigs as [|sig sigs IH]; intros st HI Hl; [exact Hl|].
  rewrite run_cons. apply IH; [apply step_Inv, HI|apply step_failure_last; assumption].
Qed.

Lemma quiet_noop : quiet (Some noop_sink).
Proof. intros sink [= <-] l ev. reflexivity. Defined.

(** Once the ['response'] listener is spent, only a failure can settle
    the promise. *)
Lemma spent_response_step telemetry sig st :
  Inv st -> att evResponse (em_req st) = false -> is_failure sig = false ->
  promise (step telemetry sig st) = promise st
  /\ att evResponse (em_req (step telemetry sig st)) = false.
Proof.
  intros HI0. canon_state st HI0. att_norm. intros -> Hf.
  destruct sig as [| |res|err|err]; try discriminate Hf;
    unfold step, unless_destroyed; cbn [destroyed opened source].
  - destruct de as [cause|]; [exec; att_norm; split; reflexivity|].
    destruct op; [|exec; att_norm; split; reflexivity].
    destruct s; [rewrite (H1 eq_refl) in *|]; destruct telemetry as [sink|];
      exec; att_norm; split; reflexivity.
  - destruct de as [cause|]; [exec; att_norm; split; reflexivity|].
    destruct op; [|exec; att_norm; split; reflexivity].
    destruct c; destruct telemetry as [sink|];
      exec; att_norm; split; reflexivity.
  - destruct de as [cause|]; [exec; att_norm; split; reflexivity|].
    destruct op; exec; att_norm; split; reflexivity.
Qed.

Lemma spent_response_run telemetry sigs : forall st,
  Inv st -> att evResponse (em_req st) = false ->
  Forall (fun sig => is_failure sig = false) sigs ->
  promise (run telemetry sigs st) = promise st.
Proof.
  induction sigs as [|sig sigs IH]; intros st HI Hr Hs; [reflexivity|].
  inversion Hs as [|? ? Hsig Hs']; subst. rewrite run_cons.
  destruct (spent_response_step telemetry sig st HI Hr Hsig) as [Hp Hr'].
  rewrite (IH _ (step_Inv telemetry sig st HI) Hr' Hs'). exact Hp.
Qed.

(** A request that was never opened, without a body stream, ignores every
    signal. *)
Lemma run_unopened telemetry sigs st :
  opened st = false -> pending st = None -> source st = None ->
  run telemetry sigs st = st.
Proof.
  intros Ho Hp Hs. induction sigs as [|sig sigs IH]; [reflexivity|].
  rewrite run_cons.
  assert (E : step telemetry sig st = st).
  { unfold step, unless_destroyed, flush_destroy.
    destruct sig; rewrite ?Ho, ?Hs; destruct (destroyed st); rewrite ?Hp; reflexivity. }
  rewrite E. exact IH.
Qed.

(** A transport error on a live request destroys it and is published. *)
Lemma error_step telemetry err st :
  Inv st -> opened st = true -> destroyed st = None ->
  att evError (em_req st) = true ->
  let a := step telemetry (SigError err) st in
  destroyed a <> None
  /\ (telemetry <> None ->
      telemetry_log a = telemetry_log st ++ [mkEvent RequestError None (PErr err)]).
Proof.
  intros HI0. canon_state st HI0.
  att_norm. intros -> -> ->.
  cbv zeta. unfold step, unless_destroyed; cbn [destroyed opened source].
  destruct y; [destruct pr|]; destruct telemetry as [sink|]; exec; att_norm;
    split; congruence.
Qed.



Lemma existsb_map_type t log :
  existsb (fun k => EventType_eqb k t) (map ev_type log)
  = existsb (fun ev => EventType_eqb (ev_type ev) t) log.
Proof. induction log as [|ev log IH]; cbn; [reflexivity|]. rewrite IH. reflexivity. Qed.

Lemma recognised_passes data :
  recognised data -> truthy data && negb (isConsumable data) = false.
Proof.
  destruct data; cbn; intros H; try destruct H; try reflexivity.
  apply andb_false_r.
Qed.

Lemma first_outcome_skip src pre sig :
  Forall (fun s => is_terminal src s = false) pre ->
  is_terminal src sig = true ->
  first_outcome src (pre ++ [sig]) = outcome_of sig.
Proof.
  intros Hpre Hsig. unfold first_outcome.
  induction Hpre as [|s pre Hs _ IH]; cbn [app find].
  - rewrite Hsig. reflexivity.
  - rewrite Hs. exact IH.
Qed.

(** ** Further facts about traces *)

Lemma published_In t log :
  published t log = false -> ~ In t (map ev_type log).
Proof.
  intros H Hin. apply published_false in H. apply in_map_iff in Hin as (ev & E & Hev).
  rewrite List.Forall_forall in H. exact (H ev Hev E).
Qed.

Lemma NoDup_snoc {A} (l : list A) a : NoDup l -> ~ In a l -> NoDup (l ++ [a]).
Proof.
  intros Hl Ha. apply NoDup_app. split; [exact Hl|]. split.
  - intros x Hx Hx'. apply list_elem_of_In in Hx, Hx'. destruct Hx' as [<-|[]]. auto.
  - apply NoDup_singleton.
Qed.

(** Each kind of event is published at most once. *)
Lemma run_nodup telemetry sigs : forall st,
  Inv st -> NoDup (map ev_type (telemetry_log st)) ->
  NoDup (map ev_type (telemetry_log (run telemetry sigs st))).
Proof.
  induction sigs as [|sig sigs IH]; intros st HI Hn; [exact Hn|].
  rewrite run_cons. apply IH; [apply step_Inv, HI|].
  destruct (delta_log _ _ _ _ (step_Delta telemetry sig st HI)) as [E|(ev & E & _ & Hp)];
    rewrite E; [exact Hn|].
  rewrite map_app. apply NoDup_snoc; [exact Hn|apply published_In, Hp].
Qed.

(** The log grows at its end, by events of the transport's stages. *)
Lemma run_grows telemetry sigs : forall st,
  Inv st ->
  exists later,
    telemetry_log (run telemetry sigs st) = telemetry_log st ++ later
    /\ Forall (fun ev => 3 <= stage (ev_type ev)) later.
Proof.
  induction sigs as [|sig sigs IH]; intros st HI.
  - exists []. rewrite app_nil_r. split; [reflexivity|constructor].
  - rewrite run_cons.
    destruct (IH _ (step_Inv telemetry sig st HI)) as (later & E & Hl).
    destruct (delta_log _ _ _ _ (step_Delta telemetry sig st HI)) as [E'|(ev & E' & Hp & _)];
      rewrite E' in E.
    + exists later. auto.
    + exists (ev :: later). rewrite <- app_assoc in E. split; [exact E|].
      constructor; [|exact Hl]. rewrite (publishes_stage _ _ Hp). destruct sig; cbn; lia.
Qed.

(** A request without listeners publishes nothing. *)
Lemma step_deaf telemetry sig st :
  deaf st -> deaf (step telemetry sig st)
             /\ telemetry_log (step telemetry sig st) = telemetry_log st.
Proof.
  destruct st as [rq sk dt rs pr ss n log eff op de pe unc src opts].
  unfold deaf. cbn. intros (-> & -> & -> & ->).
  destruct sig; unfold step, unless_destroyed; cbn;
    repeat match goal with
      | |- context [match ?b with _ => _ end] => is_var b; destruct b; cbn
      end; auto.
Qed.

Lemma run_deaf telemetry sigs : forall st,
  deaf st -> telemetry_log (run telemetry sigs st) = telemetry_log st.
Proof.
  induction sigs as [|sig sigs IH]; intros st Hd; [reflexivity|].
  rewrite run_cons. destruct (step_deaf telemetry sig st Hd) as [Hd' E].
  rewrite (IH _ Hd'). exact E.
Qed.

(** Without a telemetry emitter nothing is logged. *)
Lemma run_silent sigs : forall st,
  Inv st -> telemetry_log (run None sigs st) = telemetry_log st.
Proof.
  induction sigs as [|sig sigs IH]; intros st HI; [reflexivity|].
  rewrite run_cons, (IH _ (step_Inv None sig st HI)).
  apply (fp_silent _ _ _ _ (step_footprint None sig st HI)). reflexivity.
Qed.

Lemma precedes_snoc a b log ev :
  precedes a b log ->
  (ev_type ev = b -> published a log = true) ->
  precedes a b (log ++ [ev]).
Proof.
  intros Hp Hev l1 x l2 E Hx.
  destruct l2 as [|z l2] using rev_ind.
  - apply app_inj_tail in E as [<- <-]. auto.
  - clear IHl2. change (l1 ++ x :: l2 ++ [z]) with (l1 ++ (x :: l2) ++ [z]) in E.
    rewrite app_assoc in E. apply app_inj_tail in E as [E _].
    apply (Hp l1 x l2 E Hx).
Qed.

Lemma run_socket_first telemetry sigs : forall st,
  Inv st -> socket_first telemetry st ->
  precedes SocketObtained ConnectionEstablished (telemetry_log st) ->
  precedes SocketObtained ConnectionEstablished
    (telemetry_log (run telemetry sigs st)).
Proof.
  induction sigs as [|sig sigs IH]; intros st HI Hs Hp; [exact Hp|].
  rewrite run_cons.
  pose proof (step_footprint telemetry sig st HI) as F.
  pose proof (fp_socket_first _ _ _ _ F Hs) as Hs'.
  apply IH; [apply step_Inv, HI|exact Hs'|].
  destruct (delta_log _ _ _ _ (step_Delta telemetry sig st HI)) as [E|(ev & E & _ & Hn)];
    rewrite E; [exact Hp|].
  apply precedes_snoc; [exact Hp|]. intros Hev.
  destruct Hs' as [_ Hs']. rewrite E, !published_snoc, Hev in Hs'. cbn in Hs'.
  rewrite orb_true_r, orb_false_r in Hs'. apply Hs'. reflexivity.
Qed.

(** The promise keeps its state or holds the outcome of a terminal signal
    of the trace. *)
Lemma run_outcome_from_trace telemetry sigs : forall st,
  Inv st ->
  (promise (run telemetry sigs st) = promise st
   /\ settlements (run telemetry sigs st) = settlements st)
  \/ exists sig,
       In sig sigs /\ is_terminal (source st) sig = true
       /\ promise st = Pending
       /\ promise (run telemetry sigs st) = outcome_of sig
       /\ (att evResolve (em_resolver st) = true
           \/ att evReject (em_resolver st) = true).
Proof.
  induction sigs as [|sig sigs IH]; intros st HI; [left; split; reflexivity|].
  rewrite run_cons.
  pose proof (step_footprint telemetry sig st HI) as F.
  pose proof (step_Delta telemetry sig st HI) as D.
  destruct (fp_promise _ _ _ _ F) as [[E1 E2]|(Hp & Ho & _ & Ht & Ha)].
  - destruct (IH _ (step_Inv telemetry sig st HI))
      as [[E3 E4]|(sig' & Hin & Ht & Hp & Ho & Ha)].
    + left. split; congruence.
    + right. exists sig'. split; [right; exact Hin|].
      rewrite (delta_source _ _ _ _ D) in Ht.
      destruct (fp_resolver _ _ _ _ F) as [R1 R2].
      split; [exact Ht|]. split; [congruence|]. split; [exact Ho|].
      destruct Ha as [Ha|Ha]; auto.
  - right. exists sig. split; [left; reflexivity|]. split; [exact Ht|].
    split; [exact Hp|]. split; [|exact Ha].
    assert (Hh : holds_outcome (outcome_of sig) (settlements (step telemetry sig st))
                   (step telemetry sig st)).
    { split; [exact Ho|split; [reflexivity|]].
      destruct sig; cbn in Ht |- *; discriminate. }
    apply (run_ok (holds_outcome_framed _ _)
             (fun p _ => holds_outcome_settle _ _ p) telemetry sigs) in Hh.
    apply Hh.
Qed.

(** A destroyed request leaves the promise alone. *)
Lemma run_frozen_promise telemetry sigs : forall st,
  Inv st -> destroyed st <> None ->
  promise (run telemetry sigs st) = promise st
  /\ settlements (run telemetry sigs st) = settlements st.
Proof.
  induction sigs as [|sig sigs IH]; intros st HI Hd; [split; reflexivity|].
  rewrite run_cons.
  destruct (fp_frozen _ _ _ _ (step_footprint telemetry sig st HI) Hd) as [E1 E2].
  destruct (delta_frozen _ _ _ _ (step_Delta telemetry sig st HI) Hd) as [_ Hd'].
  destruct (IH _ (step_Inv telemetry sig st HI) Hd') as [E3 E4].
  split; congruence.
Qed.

Lemma run_guarded telemetry sigs : forall st,
  Inv st -> guarded st -> guarded (run telemetry sigs st).
Proof.
  induction sigs as [|sig sigs IH]; intros st HI Hg; [exact Hg|].
  rewrite run_cons. apply IH; [apply step_Inv, HI|].
  apply (fp_guarded _ _ _ _ (step_footprint telemetry sig st HI) Hg).
Qed.

(** With a quiet emitter, a guarded request whose body stream reports at
    most one error raises nothing. *)
Lemma run_quiet_uncaught telemetry sigs : forall st,
  quiet telemetry -> Inv st -> guarded st ->
  (source st <> None -> List.filter is_data_error sigs <> [] ->
   att evError (em_data st) = true) ->
  length (List.filter is_data_error sigs) <= 1 ->
  uncaught (run telemetry sigs st) = uncaught st.
Proof.
  induction sigs as [|sig sigs IH]; intros st Hq HI Hg Hd Hn; [reflexivity|].
  rewrite run_cons.
  pose proof (step_footprint telemetry sig st HI) as F.
  pose proof (step_Delta telemetry sig st HI) as D.
  cbn [List.filter] in Hd, Hn.
  rewrite (IH (step telemetry sig st) Hq (step_Inv telemetry sig st HI)
             (fp_guarded _ _ _ _ F Hg)).
  - apply (fp_uncaught _ _ _ _ F Hq Hg). intros Hs Hsrc.
    apply Hd; [exact Hsrc|]. rewrite Hs. discriminate.
  - rewrite (delta_source _ _ _ _ D). intros Hsrc Hf.
    destruct (is_data_error sig) eqn:Es.
    + cbn [length] in Hn. destruct (List.filter is_data_error sigs); [congruence|cbn in Hn; lia].
    + rewrite (fp_data _ _ _ _ F Es). apply Hd; assumption.
  - destruct (is_data_error sig); cbn [length] in Hn; lia.
Qed.


Lemma first_outcome_app src pre sig rest :
  Forall (fun s => is_terminal src s = false) pre ->
  is_terminal src sig = true ->
  first_outcome src (pre ++ sig :: rest) = outcome_of sig.
Proof.
  intros Hpre Hsig. unfold first_outcome.
  induction Hpre as [|s pre Hs _ IH]; cbn [app find].
  - rewrite Hsig. reflexivity.
  - rewrite Hs. exact IH.
Qed.

(** A code unit takes between one and three octets. *)
Lemma utf8_byteLength_bounds n : forall s : JsString,
  length s <= n ->
  length s <= utf8_byteLength s <= 3 * length s
  /\ (utf8_byteLength s = length s -> Forall (fun c => (c < 128)%N) s).
Proof.
  induction n as [|n IH]; intros s Hn.
  - destruct s; [|cbn in Hn; lia]. cbn. split; [lia|constructor].
  - destruct s as [|c rest]; [cbn; split; [lia|constructor]|].
    cbn [length] in Hn.
    destruct (IH rest ltac:(lia)) as [Hb He].
    cbn [utf8_byteLength length].
    destruct (N.ltb c 128) eqn:E1.
    { split; [lia|]. intros H. constructor; [apply N.ltb_lt, E1|apply He; lia]. }
    destruct (N.ltb c 2048); [split; [lia|intros; lia]|].
    destruct (is_high_surrogate c); [|split; [lia|intros; lia]].
    destruct rest as [|d rest']; [cbn; split; [lia|intros; lia]|].
    destruct (is_low_surrogate d); [|split; [lia|intros; lia]].
    cbn [length] in *.
    destruct (IH rest' ltac:(lia)) as [Hb' _].
    split; [lia|intros; lia].
Qed.


Section Properties.

Variable new_URL : string -> option string -> option URL.

Local Abbreviation request := (HttpClient.request new_URL).

Lemma request_body_ok (P : State -> Prop) (HP : Framed P)
    (this : Client) pathOrUrl reqOpts data telemetry :
  preserves P (HttpClient.request_body new_URL this pathOrUrl reqOpts data telemetry).
Proof.
  unfold HttpClient.request_body.
  apply preserves_bind.
  { unfold HttpClient.buildUrl. destruct pathOrUrl as [path|u];
      [destruct (new_URL path _)|]; intros st Hst; exact Hst. }
  intros url.
  repeat first
    [ apply (preserves_telemetry_emit HP)
    | apply (preserves_http_request HP)
    | apply (preserves_effect HP)
    | apply (preserves_once HP); first
        [ apply (lens_framed HP); tauto
        | intros em st Hst; apply (fr_em_resolver _ HP), Hst ]
    | apply preserves_bind; [|intros ?]
    | destruct data ].
Qed.

Lemma request_ok (P : State -> Prop) (HP : Framed P)
    (this : Client) pathOrUrl reqOpts data telemetry :
  (forall p, p <> Pending -> preserves P (settle p)) ->
  P (init_state data reqOpts) ->
  P (init_state data (assign_content_length (getContentLength data) reqOpts)) ->
  P (state (request this pathOrUrl reqOpts data telemetry)).
Proof.
  intros Hs H0 H1. unfold HttpClient.request.
  destruct (truthy data && negb (isConsumable data)).
  - cbn [state]. apply Hs; [discriminate|exact H0].
  - pose proof (request_body_ok P HP this pathOrUrl
                  (assign_content_length (getContentLength data) reqOpts)
                  data telemetry _ H1) as H.
    destruct (HttpClient.request_body _ _ _ _ _ _ _) as [[a|v] st]; exact H.
Qed.

(** The options object after the call: the caller's, with the derived
    content length merged when the body passed the check. *)
Lemma request_req_opts (this : Client) pathOrUrl reqOpts data telemetry :
  req_opts (state (request this pathOrUrl reqOpts data telemetry)) =
  assign_content_length (getContentLength data) reqOpts.
Proof.
  unfold HttpClient.request.
  destruct (truthy data && negb (isConsumable data)) eqn:E.
  - destruct data as [| |b|z| |s|octets|id|tag]; cbn in E;
      rewrite ?andb_false_r in E; try discriminate E; reflexivity.
  - pose proof (request_body_ok _ (req_opts_framed _) this pathOrUrl
                  (assign_content_length (getContentLength data) reqOpts)
                  data telemetry
                  (init_state data
                     (assign_content_length (getContentLength data) reqOpts))
                  eq_refl) as H.
    destruct (HttpClient.request_body _ _ _ _ _ _ _) as [[a|v] st]; exact H.
Qed.

(** Every option object that [request] hands to the transport or to
    telemetry is the options object as the call leaves it. *)
Lemma request_passes_req_opts (this : Client) pathOrUrl reqOpts data telemetry :
  let st := state (request this pathOrUrl reqOpts data telemetry) in
  (forall url o, In (EOpen url o) (effects st) -> o = req_opts st)
  /\ (forall ev url o, In ev (telemetry_log st) ->
        ev_data ev = Some (url, o) -> o = req_opts st).
Proof.
  cbn zeta. rewrite request_req_opts. unfold HttpClient.request.
  destruct (truthy data && negb (isConsumable data)).
  { split; intros; cbn in *; contradiction. }
  unfold HttpClient.request_body, HttpClient.buildUrl.
  generalize (assign_content_length (getContentLength data) reqOpts). intros o'.
  destruct pathOrUrl as [path|u]; [destruct (new_URL path _)|];
    destruct telemetry as [sink|]; destruct data; eval_M; split_sink_eval;
    (split; [intros url o H|intros ev url o H Hd]);
    cbn [In] in H;
    repeat match goal with
      | H : _ \/ _ |- _ => destruct H as [H|H]
      | H : False |- _ => destruct H
      end; subst; cbn in *; congruence.
Qed.

(** ** The calls of the synchronous part *)

(** The calls of a call that returns, in program order, and the events
    that the telemetry emitter received. *)
Lemma request_calls
    (this : Client) pathOrUrl reqOpts data telemetry :
  let r := request this pathOrUrl reqOpts data telemetry in
  let o := assign_content_length (getContentLength data) reqOpts in
  completion r = Returned ->
  truthy data && negb (isConsumable data) = false ->
  exists url,
    resolves_to new_URL this pathOrUrl url
    /\ effects (state r)
       = [EOpen url o; ESetMaxListeners 5; EOnce TReq evSocket;
          EOnce TReq evResponse; EOnce TReq evError]
         ++ body_calls data
         ++ [EOnce TResolver evResolve; EOnce TResolver evReject]
    /\ (telemetry <> None ->
        telemetry_log (state r)
        = [mkEvent RequestStreamInitialised (Some (url, o)) PUndef;
           mkEvent RequestStreamEnded None PUndef]).
Proof.
  cbv zeta. unfold HttpClient.request. intros Hc He. rewrite He in Hc |- *.
  unfold HttpClient.request_body, HttpClient.buildUrl, resolves_to in *.
  destruct pathOrUrl as [path|u].
  - destruct (new_URL path (Some (baseUrl this))) as [u|] eqn:Eu;
      [|cbn in Hc; discriminate Hc].
    exists u. split; [reflexivity|]. revert Hc.
    destruct telemetry as [sink|]; destruct data; eval_M; split_sink_eval;
      intros Hc; try discriminate Hc; (split; [reflexivity|]); intros Ht;
      first [reflexivity | congruence].
  - exists u. split; [reflexivity|]. revert Hc.
    destruct telemetry as [sink|]; destruct data; eval_M; split_sink_eval;
      intros Hc; try discriminate Hc; (split; [reflexivity|]); intros Ht;
      first [reflexivity | congruence].
Qed.

(** ** C3 *)

Lemma string_content_length (this : Client) pathOrUrl reqOpts s telemetry :
  headers_of (req_opts (state (request this pathOrUrl reqOpts (JString s) telemetry)))
    !! "content-length" = Some (HNum (Z.of_nat (length s))).
Proof.
  rewrite request_req_opts. cbn. unfold headers_of.
  rewrite lookup_insert_eq. apply lookup_insert_eq.
Qed.

Lemma buffer_content_length (this : Client) pathOrUrl reqOpts octets telemetry :
  headers_of (req_opts (state (request this pathOrUrl reqOpts (JBuffer octets) telemetry)))
    !! "content-length" = Some (HNum (Z.of_nat (length octets))).
Proof.
  rewrite request_req_opts. cbn. unfold headers_of.
  rewrite lookup_insert_eq. apply lookup_insert_eq.
Qed.

(** On strings of code units below 128 the two lengths agree. *)
Lemma utf8_byteLength_ascii (s : JsString) :
  Forall (fun c => (c < 128)%N) s -> utf8_byteLength s = length s.
Proof.
  induction 1 as [|c s Hc _ IH]; [reflexivity|].
  cbn [utf8_byteLength length]. apply N.ltb_lt in Hc. rewrite Hc, IH. reflexivity.
Qed.

(** ** C8 *)

Lemma no_length_keeps_caller_options (this : Client) pathOrUrl reqOpts data telemetry :
  getContentLength data = None ->
  keeps_caller_options reqOpts data (request this pathOrUrl reqOpts data telemetry).
Proof.
  intros Hn. unfold keeps_caller_options.
  pose proof (request_req_opts this pathOrUrl reqOpts data telemetry) as Ho.
  pose proof (request_passes_req_opts this pathOrUrl reqOpts data telemetry) as [He Ht].
  rewrite Hn in Ho. cbn in Ho. rewrite Ho in *. repeat split; auto.
Qed.

(** C8: a stream body and an absent body derive no content length, and
    the headers reach the transport as the caller supplied them, a
    caller-supplied content-length included. *)
Theorem stream_or_absent_body_adds_no_content_length
    (this : Client) pathOrUrl reqOpts telemetry :
  (forall id,
      keeps_caller_options reqOpts (JReadable id)
        (request this pathOrUrl reqOpts (JReadable id) telemetry))
  /\ keeps_caller_options reqOpts JUndefined
       (request this pathOrUrl reqOpts JUndefined telemetry).
Proof.
  split; [intros id|]; apply no_length_keeps_caller_options; reflexivity.
Qed.

(** ** C9 *)

Lemma headers_of_insert (o : RequestOptions) h :
  headers_of (<["headers" := OHeaders h]> o) = h.
Proof. unfold headers_of. rewrite lookup_insert_eq. reflexivity. Qed.

Lemma spread_lookup (base own : RequestOptions) k :
  spread base own !! k = override (own !! k) (base !! k).
Proof.
  unfold spread, override. rewrite lookup_union.
  destruct (own !! k), (base !! k); reflexivity.
Qed.


(** ** C10 *)

(** C10: a base address whose protocol is not ["http:"] makes the
    constructor throw and yields no client; with protocol ["http:"] the
    client holds the address and the base options as given. *)
Theorem constructor_checks_protocol (baseUrl : string)
    (baseReqOpts : option RequestOptions) (u : URL) :
  new_URL baseUrl None = Some u ->
  (protocol u <> "http:" ->
     HttpClient.constructor new_URL baseUrl baseReqOpts
     = inl (unsupported_protocol_error (protocol u)))
  /\ (protocol u = "http:" ->
        HttpClient.constructor new_URL baseUrl baseReqOpts
        = inr (mkClient baseUrl baseReqOpts)).
Proof.
  intros Hu. unfold HttpClient.constructor. rewrite Hu.
  destruct (String.eqb_spec (protocol u) "http:") as [E|E]; cbn.
  - split; [intros H; contradiction|reflexivity].
  - split; [reflexivity|intros H; contradiction].
Qed.

(** ** The life of a request *)

Ltac request_cases pathOrUrl data telemetry :=
  unfold HttpClient.request, HttpClient.request_body, HttpClient.buildUrl;
  destruct (truthy data && negb (isConsumable data)) eqn:Echeck;
  [ | destruct pathOrUrl as [path|u];
      [destruct (new_URL path _) as [u|]|];
      destruct telemetry as [sink|]; destruct data as [| |b|z| |s|octets|id|tag] ];
  eval_M; split_sink_eval.

Lemma request_inv (this : Client) pathOrUrl reqOpts data telemetry :
  Inv (state (request this pathOrUrl reqOpts data telemetry)).
Proof.
  request_cases pathOrUrl data telemetry;
    (constructor; cbn; try (repeat split; reflexivity); intros;
     try reflexivity; try discriminate).
Qed.

Lemma request_log (this : Client) pathOrUrl reqOpts data telemetry :
  let log := telemetry_log (state (request this pathOrUrl reqOpts data telemetry)) in
  StronglySorted stage_lt log
  /\ Forall (fun ev => stage (ev_type ev) <= 2) log
  /\ Forall (reached []) log.
Proof.
  cbv zeta. request_cases pathOrUrl data telemetry;
    repeat first [split | constructor]; cbn; try exact I; unfold stage_lt; cbn; lia.
Qed.

(** Whatever the transport reports, and in whatever order, nothing is
    published after RequestError. *)
Lemma nothing_published_after_failure
    (this : Client) pathOrUrl reqOpts data telemetry sigs :
  failure_last
    (telemetry_log
       (run telemetry sigs (state (request this pathOrUrl reqOpts data telemetry)))).
Proof.
  apply run_failure_last; [apply request_inv|].
  destruct (request_log this pathOrUrl reqOpts data telemetry) as (_ & Hk & _).
  intros l1 ev l2 E Hev. rewrite E in Hk.
  apply Forall_app in Hk as [_ Hk]. inversion Hk as [|? ? Hle _]; subst.
  rewrite Hev in Hle. cbn in Hle. lia.
Qed.

Lemma request_start (this : Client) pathOrUrl reqOpts data telemetry :
  let r := request this pathOrUrl reqOpts data telemetry in
  completion r = Returned ->
  truthy data && negb (isConsumable data) = false ->
  alive (state r)
  /\ source (state r) = body_stream data
  /\ (telemetry = None -> telemetry_log (state r) = [])
  /\ (telemetry <> None ->
      map ev_type (telemetry_log (state r))
      = [RequestStreamInitialised; RequestStreamEnded]).
Proof.
  cbv zeta. intros Hc He. revert Hc.
  request_cases pathOrUrl data telemetry; try congruence; intros Hc;
    try discriminate Hc;
    (split; [constructor; cbn; first [reflexivity | congruence | intros; congruence]|]);
    (split; [reflexivity|]); split; intros; cbn; congruence.
Qed.

Lemma request_source (this : Client) pathOrUrl reqOpts data telemetry :
  source (state (request this pathOrUrl reqOpts data telemetry)) = body_stream data.
Proof.
  apply (request_ok (fun st => source st = body_stream data)).
  - constructor; intros; destruct st; assumption.
  - intros p _ st H. destruct st as [? ? ? ? pr ? ? ? ? ? ? ? ? ? ?].
    unfold settle, modify. cbn in *. destruct pr; exact H.
  - reflexivity.
  - reflexivity.
Qed.

Lemma request_rejects_unrecognised (this : Client) pathOrUrl reqOpts data telemetry :
  truthy data = true -> isConsumable data = false ->
  let r := request this pathOrUrl reqOpts data telemetry in
  completion r = Returned
  /\ promise (state r) = Rejected (PErr invalid_body_error)
  /\ opened (state r) = false
  /\ effects (state r) = []
  /\ telemetry_log (state r) = [].
Proof.
  intros Ht Hc. unfold HttpClient.request. rewrite Ht, Hc. cbn. auto.
Qed.

(** C4, as amended.  A body that is truthy and is neither a Buffer, a
    Readable nor a string makes [request] return a promise rejected with
    the [TypeError] of line 69; no request is opened, no telemetry event
    is published, and no signal changes that. *)
Theorem unrecognised_truthy_body_is_rejected
    (this : Client) pathOrUrl reqOpts data telemetry sigs :
  truthy data = true -> isConsumable data = false ->
  let r := request this pathOrUrl reqOpts data telemetry in
  completion r = Returned
  /\ promise (state r) = Rejected (PErr invalid_body_error)
  /\ opened (state r) = false
  /\ effects (state r) = []
  /\ telemetry_log (state r) = []
  /\ run telemetry sigs (state r) = state r.
Proof.
  intros Ht Hc. cbv zeta.
  destruct (request_rejects_unrecognised this pathOrUrl reqOpts data telemetry Ht Hc)
    as (H1 & H2 & H3 & H4 & H5).
  repeat (split; [assumption|]).
  apply run_unopened; [exact H3| |].
  - pose proof (request_inv this pathOrUrl reqOpts data telemetry) as HI.
    apply (inv_pending _ HI).
  - rewrite request_source. destruct data; cbn in Hc |- *; congruence.
Qed.

Lemma request_stream_effects (this : Client) pathOrUrl reqOpts id telemetry :
  let r := request this pathOrUrl reqOpts (JReadable id) telemetry in
  completion r = Returned ->
  exists l1 l2,
    effects (state r) = l1 ++ EOnce TData evError :: EPipe id :: l2
    /\ ~ In (EPipe id) l1.
Proof.
  cbv zeta.
  unfold HttpClient.request, HttpClient.request_body, HttpClient.buildUrl.
  cbn [truthy isConsumable isBuffer instanceof_Readable typeof_string orb andb negb].
  destruct pathOrUrl as [path|u]; [destruct (new_URL path _) as [u|]|];
    destruct telemetry as [sink|]; eval_M; split_sink_eval;
    intros Hc; try discriminate Hc;
    match goal with
    | |- context [EOpen ?u ?o] =>
        exists [EOpen u o; ESetMaxListeners 5; EOnce TReq evSocket;
                EOnce TReq evResponse; EOnce TReq evError],
               [EOnce TResolver evResolve; EOnce TResolver evReject]
    end;
    (split; [reflexivity|]); cbn; intuition discriminate.
Qed.

Lemma request_erase (this : Client) pathOrUrl reqOpts data sink :
  quiet (Some sink) ->
  let a := request this pathOrUrl reqOpts data (Some sink) in
  let b := request this pathOrUrl reqOpts data None in
  completion a = completion b /\ erase (state a) = state b.
Proof.
  intros Hq. cbv zeta.
  unfold HttpClient.request, HttpClient.request_body, HttpClient.buildUrl.
  destruct (truthy data && negb (isConsumable data)) eqn:Echeck;
    [split; reflexivity|].
  destruct pathOrUrl as [path|u]; [destruct (new_URL path _) as [u|]|];
    destruct data as [| |b|z| |s|octets|id|tag]; eval_M;
    rewrite ?(Hq sink eq_refl); eval_M; rewrite ?(Hq sink eq_refl); eval_M;
    split; reflexivity.
Qed.


(** C1, as amended.  The promise that [request] leaves is settled at most
    once, with one outcome, and once it is settled no further signal, be
    it a duplicate or a late one, changes the outcome or settles it again.
    When the body is one of the recognised variants, the call returns and
    no telemetry listener throws, the outcome is the one the first
    terminal signal decides: fulfilled with the response handle of a
    ['response'], rejected with the error of an ['error'] of the request
    or of the body stream, and pending as long as no terminal signal has
    come. *)
Theorem outcome_settles_at_most_once
    (this : Client) pathOrUrl reqOpts data telemetry sigs :
  let r := request this pathOrUrl reqOpts data telemetry in
  let st := run telemetry sigs (state r) in
  settled_once st
  /\ length (settlements st) <= 1
  /\ (forall more,
        promise st <> Pending ->
        promise (run telemetry more st) = promise st
        /\ settlements (run telemetry more st) = settlements st)
  /\ (quiet telemetry -> recognised data -> completion r = Returned ->
      promise st = first_outcome (body_stream data) sigs).
Proof.
  cbv zeta.
  assert (Hso : settled_once
                  (run telemetry sigs
                     (state (request this pathOrUrl reqOpts data telemetry)))).
  { apply (run_ok settled_once_framed settled_once_settle).
    apply (request_ok settled_once settled_once_framed);
      [apply settled_once_settle|reflexivity|reflexivity]. }
  split; [exact Hso|]. split; [|split].
  - unfold settled_once in Hso.
    destruct (settlements _) as [|p [|q l]]; cbn; [lia|lia|destruct Hso].
  - intros more Hp.
    set (st := run telemetry sigs _) in *.
    assert (Hh : holds_outcome (promise st) (settlements st) st)
      by (split; [reflexivity|split; [reflexivity|exact Hp]]).
    apply (run_ok (holds_outcome_framed _ _)
             (fun p _ => holds_outcome_settle _ _ p) telemetry more) in Hh.
    destruct Hh as (H1 & H2 & _). split; assumption.
  - intros Hq Hr Hc.
    destruct (request_start this pathOrUrl reqOpts data telemetry Hc
                (recognised_passes _ Hr)) as (Ha & Hs & _).
    rewrite <- Hs. apply run_first_outcome; [exact Hq|apply request_inv|exact Ha].
Qed.


(** C5, as amended.  When the first signal of a request is the
    transport's error, the telemetry observed is exactly
    RequestStreamInitialised, RequestStreamEnded, RequestError, the last
    one carrying the error; the promise is rejected with that error; and
    SocketObtained, ConnectionEstablished and ResponseStreamReceived are
    never published, whatever the transport reports afterwards. *)
Theorem failure_before_socket
    (this : Client) pathOrUrl reqOpts data sink e rest :
  quiet (Some sink) -> recognised data ->
  let r := request this pathOrUrl reqOpts data (Some sink) in
  completion r = Returned ->
  let st := run (Some sink) (SigError e :: rest) (state r) in
  map ev_type (telemetry_log st)
  = [RequestStreamInitialised; RequestStreamEnded; RequestError]
  /\ (exists ev, last (telemetry_log st) = Some ev /\ ev_error ev = PErr e)
  /\ promise st = Rejected (PErr e)
  /\ published SocketObtained (telemetry_log st) = false
  /\ published ConnectionEstablished (telemetry_log st) = false
  /\ published ResponseStreamReceived (telemetry_log st) = false.
Proof.
  intros Hq Hr. cbv zeta. intros Hc.
  pose proof (request_inv this pathOrUrl reqOpts data (Some sink)) as HI.
  destruct (request_start this pathOrUrl reqOpts data (Some sink) Hc
              (recognised_passes _ Hr)) as (Ha & Hs & _ & Hl).
  specialize (Hl ltac:(discriminate)).
  set (st0 := state (request this pathOrUrl reqOpts data (Some sink))) in *.
  rewrite run_cons.
  destruct (error_step (Some sink) e st0 HI (alive_opened _ Ha)
              (alive_destroyed _ Ha) (alive_error _ Ha)) as [Hd Hl1].
  specialize (Hl1 ltac:(discriminate)).
  destruct (run_frozen (Some sink) rest _ (step_Inv (Some sink) (SigError e) st0 HI) Hd)
    as [Hlog _].
  assert (Hp : promise (run (Some sink) rest (step (Some sink) (SigError e) st0))
               = Rejected (PErr e)).
  { change (run (Some sink) rest (step (Some sink) (SigError e) st0))
      with (run (Some sink) (SigError e :: rest) st0).
    rewrite (run_first_outcome (Some sink) (SigError e :: rest) st0 Hq HI Ha).
    reflexivity. }
  rewrite Hlog, Hl1.
  assert (Hm : map ev_type (telemetry_log st0 ++ [mkEvent RequestError None (PErr e)])
               = [RequestStreamInitialised; RequestStreamEnded; RequestError])
    by (rewrite map_app, Hl; reflexivity).
  split; [exact Hm|].
  split; [exists (mkEvent RequestError None (PErr e)); split; [apply last_snoc|reflexivity]|].
  split; [exact Hp|].
  unfold published. rewrite <- !(existsb_map_type); rewrite Hm. cbn. auto.
Qed.


(** C6, as amended.  For a stream body, the ['error'] listener is
    attached to the stream just before the stream is piped.  When the
    stream reports an error before the transport has reported a response
    or an error, the request is destroyed with that error as cause, and the
    telemetry log and the promise end as they do when the transport itself
    reports that error: RequestError is published with the error.  The
    promise is rejected with the stream's error when no telemetry listener
    throws. *)
Theorem stream_error_destroys_request
    (this : Client) pathOrUrl reqOpts id telemetry pre e :
  let r := request this pathOrUrl reqOpts (JReadable id) telemetry in
  completion r = Returned ->
  Forall (fun sig => is_terminal (Some id) sig = false) pre ->
  let st := run telemetry pre (state r) in
  let a := step telemetry (SigDataError e) st in
  let b := step telemetry (SigError e) st in
  (exists l1 l2,
      effects (state r) = l1 ++ EOnce TData evError :: EPipe id :: l2
      /\ ~ In (EPipe id) l1)
  /\ destroyed a = Some (PErr e)
  /\ In (EDestroy (PErr e)) (effects a)
  /\ telemetry_log a = telemetry_log b
  /\ promise a = promise b
  /\ (telemetry <> None ->
      telemetry_log a = telemetry_log st ++ [mkEvent RequestError None (PErr e)])
  /\ (quiet telemetry -> promise a = Rejected (PErr e)).
Proof.
  cbv zeta. intros Hc Hnt.
  assert (Hpre : Forall (fun sig => is_failure sig = false) pre).
  { eapply Forall_impl; [exact Hnt|]. intros sig. destruct sig; cbn; congruence. }
  pose proof (request_inv this pathOrUrl reqOpts (JReadable id) telemetry) as HI.
  destruct (request_start this pathOrUrl reqOpts (JReadable id) telemetry Hc eq_refl)
    as (Ha & Hs & _).
  set (st0 := state (request this pathOrUrl reqOpts (JReadable id) telemetry)) in *.
  cbn [body_stream] in Hs.
  destruct (run_calm telemetry pre st0 HI Hpre) as (C1 & C2 & C3 & C4 & C5).
  assert (Hd : att evError (em_data st0) = true)
    by (apply (alive_data _ Ha); rewrite Hs; discriminate).
  destruct (source_error_step telemetry e (run telemetry pre st0)
              (run_Inv telemetry pre st0 HI))
    as (S1 & S2 & S3 & S4 & _ & S6).
  { rewrite C5. apply (alive_opened _ Ha). }
  { rewrite C1. apply (alive_destroyed _ Ha). }
  { rewrite C2. apply (alive_error _ Ha). }
  { rewrite C3. exact Hd. }
  { rewrite C4, Hs. discriminate. }
  split; [apply (request_stream_effects this pathOrUrl reqOpts id telemetry Hc)|].
  repeat (split; [assumption|]).
  intros Hq.
  change (step telemetry (SigDataError e) (run telemetry pre st0))
    with (run telemetry [SigDataError e] (run telemetry pre st0)).
  rewrite <- run_app.
  rewrite (run_first_outcome telemetry (pre ++ [SigDataError e]) st0 Hq HI Ha).
  rewrite Hs. apply first_outcome_skip; [exact Hnt|reflexivity].
Qed.

(** C7, as amended.  A telemetry emitter whose listeners do not throw
    changes nothing but the telemetry log: the call completes the same way
    and, after any signals, the promise and the rest of the state are the
    ones of the call without emitter. *)
Theorem quiet_sink_leaves_outcome
    (this : Client) pathOrUrl reqOpts data sink sigs :
  quiet (Some sink) ->
  let a := request this pathOrUrl reqOpts data (Some sink) in
  let b := request this pathOrUrl reqOpts data None in
  completion a = completion b
  /\ promise (run (Some sink) sigs (state a)) = promise (run None sigs (state b))
  /\ erase (run (Some sink) sigs (state a)) = run None sigs (state b).
Proof.
  intros Hq. cbv zeta.
  destruct (request_erase this pathOrUrl reqOpts data sink Hq) as [Hc He].
  assert (H : erase (run (Some sink) sigs
                       (state (request this pathOrUrl reqOpts data (Some sink))))
              = run None sigs (state (request this pathOrUrl reqOpts data None))).
  { rewrite erase_run by (auto using request_inv). rewrite He. reflexivity. }
  split; [exact Hc|]. split; [|exact H].
  rewrite <- H. unfold erase. destruct (run (Some sink) sigs _). reflexivity.
Qed.

(** ** Further properties of [request] and of the wrappers *)

(** The promise as the synchronous part leaves it. *)
Lemma request_promise (this : Client) pathOrUrl reqOpts data telemetry :
  promise (state (request this pathOrUrl reqOpts data telemetry))
  = if truthy data && negb (isConsumable data)
    then Rejected (PErr invalid_body_error) else Pending.
Proof.
  request_cases pathOrUrl data telemetry; reflexivity.
Qed.



(** The synchronous part runs no listener of the platform. *)
Lemma request_uncaught (this : Client) pathOrUrl reqOpts data telemetry :
  uncaught (state (request this pathOrUrl reqOpts data telemetry)) = [].
Proof.
  request_cases pathOrUrl data telemetry; reflexivity.
Qed.

(** A call that returns has attached the ['error'] listener. *)
Lemma request_guarded (this : Client) pathOrUrl reqOpts data telemetry :
  completion (request this pathOrUrl reqOpts data telemetry) = Returned ->
  guarded (state (request this pathOrUrl reqOpts data telemetry)).
Proof.
  unfold guarded.
  request_cases pathOrUrl data telemetry; cbn; intros; congruence.
Qed.

Lemma request_socket_first (this : Client) pathOrUrl reqOpts data telemetry :
  let st := state (request this pathOrUrl reqOpts data telemetry) in
  socket_first telemetry st
  /\ precedes SocketObtained ConnectionEstablished (telemetry_log st).
Proof.
  cbv zeta. unfold socket_first, precedes.
  request_cases pathOrUrl data telemetry;
    (split; [split; cbn; intros; congruence|]);
    intros l1 ev l2 E Hev; cbn in E;
    repeat (destruct l1 as [|? l1]; cbn in E; try discriminate E;
            try (injection E as <- E; cbn in Hev; try discriminate Hev)).
Qed.

(** The log that the synchronous part leaves: nothing, the first event
    when the call stopped there, or both events. *)
Lemma request_synchronous_log (this : Client) pathOrUrl reqOpts data telemetry :
  let st := state (request this pathOrUrl reqOpts data telemetry) in
  (map ev_type (telemetry_log st) = [] /\ (telemetry = None \/ deaf st))
  \/ (map ev_type (telemetry_log st) = [RequestStreamInitialised] /\ deaf st)
  \/ map ev_type (telemetry_log st) = [RequestStreamInitialised; RequestStreamEnded].
Proof.
  cbv zeta. unfold deaf.
  request_cases pathOrUrl data telemetry; cbn; auto 10.
Qed.


(** X1.  Whatever the transport reports, in whatever order and however
    often, and whatever the telemetry listeners do, each kind of event is
    handed to the telemetry emitter at most once for a request; a request
    publishes at most six events. *)
Theorem each_event_kind_is_published_at_most_once
    (this : Client) pathOrUrl reqOpts data telemetry sigs :
  let log :=
    telemetry_log
      (run telemetry sigs (state (request this pathOrUrl reqOpts data telemetry))) in
  NoDup (map ev_type log) /\ length log <= 6.
Proof.
  cbv zeta.
  assert (Hn : NoDup
                 (map ev_type
                    (telemetry_log
                       (run telemetry sigs
                          (state (request this pathOrUrl reqOpts data telemetry)))))).
  { apply run_nodup; [apply request_inv|].
    destruct (request_synchronous_log this pathOrUrl reqOpts data telemetry)
      as [[E _]|[[E _]|E]]; rewrite E.
    - constructor.
    - constructor; [apply not_elem_of_nil|constructor].
    - constructor; [rewrite list_elem_of_singleton; discriminate|].
      constructor; [apply not_elem_of_nil|constructor]. }
  split; [exact Hn|].
  rewrite <- (length_map ev_type).
  apply (submseteq_length _
           [RequestStreamInitialised; SocketObtained; ConnectionEstablished;
            RequestStreamEnded; ResponseStreamReceived; RequestError]).
  apply NoDup_submseteq; [exact Hn|].
  intros t _. rewrite !elem_of_cons. destruct t; auto 10.
Qed.

(** X2.  On every trace and for every telemetry emitter, the log is the
    events of the synchronous part followed by events of the transport's
    listeners: the synchronous part leaves a prefix of
    RequestStreamInitialised, RequestStreamEnded; the listeners publish
    nothing unless both were handed over; and every ConnectionEstablished
    has a SocketObtained before it. *)
Theorem transport_events_follow_the_synchronous_ones
    (this : Client) pathOrUrl reqOpts data telemetry sigs :
  let r := request this pathOrUrl reqOpts data telemetry in
  let log := telemetry_log (run telemetry sigs (state r)) in
  exists later,
    log = telemetry_log (state r) ++ later
    /\ (exists k,
          map ev_type (telemetry_log (state r))
          = firstn k [RequestStreamInitialised; RequestStreamEnded])
    /\ Forall (fun ev => is_synchronous (ev_type ev) = false) later
    /\ (later <> [] ->
        map ev_type (telemetry_log (state r))
        = [RequestStreamInitialised; RequestStreamEnded])
    /\ precedes SocketObtained ConnectionEstablished log.
Proof.
  cbv zeta.
  pose proof (request_inv this pathOrUrl reqOpts data telemetry) as HI.
  destruct (run_grows telemetry sigs _ HI) as (later & E & Hl).
  exists later. split; [exact E|]. split; [|split; [|split]].
  - destruct (request_synchronous_log this pathOrUrl reqOpts data telemetry)
      as [[E' _]|[[E' _]|E']]; rewrite E'; [exists 0|exists 1|exists 2]; reflexivity.
  - eapply Forall_impl; [exact Hl|]. intros ev. cbv beta.
    destruct (ev_type ev); cbn; intros Hev; first [reflexivity | lia].
  - intros Hne.
    assert (Hsame : telemetry_log
                      (run telemetry sigs
                         (state (request this pathOrUrl reqOpts data telemetry)))
                    = telemetry_log
                        (state (request this pathOrUrl reqOpts data telemetry)) ->
                    False).
    { intros E'. rewrite E' in E. rewrite <- (app_nil_r (telemetry_log _)) in E at 1.
      apply app_inv_head in E. congruence. }
    destruct (request_synchronous_log this pathOrUrl reqOpts data telemetry)
      as [[_ [Ht|Hd]]|[[_ Hd]|E']]; [| | |exact E'].
    + exfalso. apply Hsame. subst telemetry. apply run_silent, HI.
    + exfalso. apply Hsame. apply run_deaf, Hd.
    + exfalso. apply Hsame. apply run_deaf, Hd.
  - destruct (request_socket_first this pathOrUrl reqOpts data telemetry) as [Hs Hp].
    apply run_socket_first; assumption.
Qed.

(** X3.  The promise is never settled with a value of the code's own
    making, save the [TypeError] of the body check: when it is fulfilled,
    it holds the response handle of a ['response'] signal of the trace;
    when it is rejected, it holds the error of an ['error'] signal of the
    request, or of the body stream when the body is one.  This holds for
    every telemetry emitter: what a telemetry listener throws never becomes
    the outcome. *)
Theorem outcome_comes_from_the_transport
    (this : Client) pathOrUrl reqOpts data telemetry sigs :
  let r := request this pathOrUrl reqOpts data telemetry in
  match promise (run telemetry sigs (state r)) with
  | Pending => True
  | Fulfilled v => exists res, v = PRes res /\ In (SigResponse res) sigs
  | Rejected v =>
      (exists e,
          v = PErr e
          /\ (In (SigError e) sigs
              \/ (In (SigDataError e) sigs /\ body_stream data <> None)))
      \/ (v = PErr invalid_body_error
          /\ truthy data = true /\ isConsumable data = false)
  end.
Proof.
  cbv zeta.
  pose proof (request_inv this pathOrUrl reqOpts data telemetry) as HI.
  pose proof (request_promise this pathOrUrl reqOpts data telemetry) as Hp.
  destruct (run_outcome_from_trace telemetry sigs _ HI)
    as [[E _]|(sig & Hin & Ht & _ & Ho & _)].
  - rewrite E, Hp. destruct (truthy data && negb (isConsumable data)) eqn:Ec; [|exact I].
    right. apply andb_true_iff in Ec as [Ec1 Ec2]. apply negb_true_iff in Ec2. auto.
  - rewrite Ho. rewrite request_source in Ht.
    destruct sig as [| |res|e|e]; cbn in Ht |- *; try discriminate Ht.
    + exists res. auto.
    + left. exists e. auto.
    + left. exists e. split; [reflexivity|]. right. split; [exact Hin|].
      destruct (body_stream data); [discriminate|discriminate Ht].
Qed.

(** X4.  Once RequestError has been handed to the telemetry emitter,
    the request is destroyed and nothing that the transport reports
    afterwards changes the promise, its settlements or the log; a promise
    that a throwing listener left pending stays pending. *)
Theorem published_failure_is_final
    (this : Client) pathOrUrl reqOpts data telemetry pre post :
  let st := run telemetry pre (state (request this pathOrUrl reqOpts data telemetry)) in
  published RequestError (telemetry_log st) = true ->
  destroyed st <> None
  /\ promise (run telemetry post st) = promise st
  /\ settlements (run telemetry post st) = settlements st
  /\ telemetry_log (run telemetry post st) = telemetry_log st.
Proof.
  cbv zeta. intros Hp.
  pose proof (run_Inv telemetry pre _
                (request_inv this pathOrUrl reqOpts data telemetry)) as HI.
  assert (Hd : destroyed
                 (run telemetry pre
                    (state (request this pathOrUrl reqOpts data telemetry))) <> None).
  { intros Hd. rewrite (inv_destroyed _ HI Hd) in Hp. discriminate Hp. }
  split; [exact Hd|].
  destruct (run_frozen_promise telemetry post _ HI Hd) as [E1 E2].
  destruct (run_frozen telemetry post _ HI Hd) as [E3 _]. auto.
Qed.

(** X5.  An error that the transport reports after the response is still
    published: with listeners that do not throw, when a ['response'] comes
    after the socket's signals and an ['error'] follows it, the promise is
    fulfilled with the response, the request is destroyed, and RequestError,
    carrying the error, is the last event of the log. *)
Theorem failure_after_response_is_published
    (this : Client) pathOrUrl reqOpts data sink pre res mid e :
  quiet (Some sink) -> recognised data ->
  let r := request this pathOrUrl reqOpts data (Some sink) in
  completion r = Returned ->
  Forall (fun sig => is_progress sig = true) pre ->
  Forall (fun sig => is_failure sig = false) mid ->
  let st := run (Some sink) (pre ++ SigResponse res :: mid ++ [SigError e]) (state r) in
  promise st = Fulfilled (PRes res)
  /\ last (telemetry_log st) = Some (mkEvent RequestError None (PErr e))
  /\ destroyed st <> None.
Proof.
  intros Hq Hr. cbv zeta. intros Hc Hpre Hmid.
  pose proof (request_inv this pathOrUrl reqOpts data (Some sink)) as HI.
  destruct (request_start this pathOrUrl reqOpts data (Some sink) Hc
              (recognised_passes _ Hr)) as (Ha & Hs & _ & Hl).
  set (st0 := state (request this pathOrUrl reqOpts data (Some sink))) in *.
  assert (Hp : promise (run (Some sink) (pre ++ SigResponse res :: mid ++ [SigError e]) st0)
               = Fulfilled (PRes res)).
  { rewrite (run_first_outcome _ _ st0 Hq HI Ha).
    apply (first_outcome_app _ pre (SigResponse res)); [|reflexivity].
    eapply Forall_impl; [exact Hpre|]. intros sig Hsig. destruct sig; cbn in *; congruence. }
  split; [exact Hp|].
  replace (pre ++ SigResponse res :: mid ++ [SigError e])
    with ((pre ++ SigResponse res :: mid) ++ [SigError e])
    by (rewrite <- app_assoc; reflexivity).
  rewrite run_app. change (run (Some sink) [SigError e] ?s) with (step (Some sink) (SigError e) s).
  set (st1 := run (Some sink) (pre ++ SigResponse res :: mid) st0).
  assert (Hcalm : Forall (fun sig => is_failure sig = false) (pre ++ SigResponse res :: mid)).
  { apply Forall_app. split.
    - eapply Forall_impl; [exact Hpre|]. intros sig Hsig. destruct sig; cbn in *; congruence.
    - constructor; [reflexivity|exact Hmid]. }
  destruct (run_calm (Some sink) _ st0 HI Hcalm) as (C1 & C2 & _ & _ & C5).
  destruct (error_step (Some sink) e st1 (run_Inv _ _ _ HI)) as [Hd Hlog].
  { unfold st1. rewrite C5. apply (alive_opened _ Ha). }
  { unfold st1. rewrite C1. apply (alive_destroyed _ Ha). }
  { unfold st1. rewrite C2. apply (alive_error _ Ha). }
  specialize (Hlog ltac:(discriminate)).
  split; [rewrite Hlog; apply last_snoc|exact Hd].
Qed.

(** X9.  A path that the [URL] parser refuses makes [request] throw the
    parser's error instead of returning a rejected promise: no request is
    opened, nothing is published, no listener is attached to the resolver,
    and the caller's options already carry the derived content length. *)
Theorem unparsable_path_throws_before_opening
    (this : Client) path reqOpts data telemetry :
  new_URL path (Some (baseUrl this)) = None ->
  truthy data && negb (isConsumable data) = false ->
  let r := request this (PPath path) reqOpts data telemetry in
  completion r = Threw (PErr invalid_url_error)
  /\ opened (state r) = false
  /\ effects (state r) = []
  /\ telemetry_log (state r) = []
  /\ em_resolver (state r) = []
  /\ req_opts (state r) = assign_content_length (getContentLength data) reqOpts.
Proof.
  intros Hu Hc. cbv zeta.
  unfold HttpClient.request, HttpClient.request_body, HttpClient.buildUrl.
  rewrite Hc, Hu. cbn. repeat split.
Qed.

(** X8.  A call that returns has made these calls, in this order: it
    opened the request at the address of [buildUrl] with the options that
    carry the derived content length, raised the listener limit to 5,
    attached the ['socket'], ['response'] and ['error'] listeners, handed
    the body over (the stream's ['error'] listener, then [pipe]; or [end]
    with the body as given, absent included), and attached [resolve] and
    [reject] last.  The telemetry emitter, when there is one, received
    RequestStreamInitialised with that address and those options, then
    RequestStreamEnded. *)
Theorem returned_call_has_made_these_calls
    (this : Client) pathOrUrl reqOpts data telemetry :
  let r := request this pathOrUrl reqOpts data telemetry in
  let o := assign_content_length (getContentLength data) reqOpts in
  completion r = Returned ->
  truthy data && negb (isConsumable data) = false ->
  exists url,
    resolves_to new_URL this pathOrUrl url
    /\ effects (state r)
       = [EOpen url o; ESetMaxListeners 5; EOnce TReq evSocket;
          EOnce TReq evResponse; EOnce TReq evError]
         ++ body_calls data
         ++ [EOnce TResolver evResolve; EOnce TResolver evReject]
    /\ (telemetry <> None ->
        telemetry_log (state r)
        = [mkEvent RequestStreamInitialised (Some (url, o)) PUndef;
           mkEvent RequestStreamEnded None PUndef]).
Proof.
  exact (request_calls this pathOrUrl reqOpts data telemetry).
Qed.



(** X6.  When no telemetry listener throws and the body stream reports
    at most one error, no exception leaves a listener of a call that
    returned, whatever the transport reports: every ['error'] finds its
    listener. *)
Theorem quiet_telemetry_raises_nothing
    (this : Client) pathOrUrl reqOpts data telemetry sigs :
  quiet telemetry ->
  let r := request this pathOrUrl reqOpts data telemetry in
  completion r = Returned ->
  length (List.filter is_data_error sigs) <= 1 ->
  uncaught (run telemetry sigs (state r)) = [].
Proof.
  intros Hq. cbv zeta. intros Hc Hn.
  pose proof (request_inv this pathOrUrl reqOpts data telemetry) as HI.
  rewrite run_quiet_uncaught; auto.
  - apply request_uncaught.
  - apply request_guarded, Hc.
  - intros Hsrc _.
    destruct (truthy data && negb (isConsumable data)) eqn:Ec.
    + exfalso. apply Hsrc. rewrite request_source.
      destruct data; cbn in Ec |- *; congruence.
    + destruct (request_start this pathOrUrl reqOpts data telemetry Hc Ec)
        as (Ha & _). apply (alive_data _ Ha), Hsrc.
Qed.

(** X7.  The listeners are [once] listeners: after a call that returned,
    a signal of the request or of its socket that is delivered a second
    time changes nothing, neither the promise, the log, the listeners nor
    the calls made. *)
Theorem repeated_signal_changes_nothing
    (this : Client) pathOrUrl reqOpts data telemetry sigs sig :
  let r := request this pathOrUrl reqOpts data telemetry in
  completion r = Returned ->
  is_data_error sig = false ->
  let st := run telemetry sigs (state r) in
  step telemetry sig (step telemetry sig st) = step telemetry sig st.
Proof.
  cbv zeta. intros Hc Hs.
  pose proof (run_Inv telemetry sigs _
                (request_inv this pathOrUrl reqOpts data telemetry)) as HI.
  pose proof (run_guarded telemetry sigs _
                (request_inv this pathOrUrl reqOpts data telemetry)
                (request_guarded this pathOrUrl reqOpts data telemetry Hc)) as Hg.
  set (st := run telemetry sigs _) in *.
  pose proof (step_footprint telemetry sig st HI) as F.
  apply (fp_deaf _ _ _ _ (step_footprint telemetry sig _ (step_Inv telemetry sig st HI))).
  - apply (fp_guarded _ _ _ _ F Hg).
  - apply (fp_spent _ _ _ _ F Hs).
Qed.

(** X12.  The content length derived for a text body, its number of
    UTF-16 code units, never exceeds the number of octets that the body
    takes in UTF-8, and is at least a third of it; the two agree exactly
    when every code unit is below 128. *)
Theorem text_content_length_never_exceeds_the_octets
    (this : Client) pathOrUrl reqOpts (s : JsString) telemetry :
  let r := request this pathOrUrl reqOpts (JString s) telemetry in
  headers_of (req_opts (state r)) !! "content-length"
  = Some (HNum (Z.of_nat (length s)))
  /\ length s <= utf8_byteLength s <= 3 * length s
  /\ (utf8_byteLength s = length s <-> Forall (fun c => (c < 128)%N) s).
Proof.
  cbv zeta. split; [apply string_content_length|].
  destruct (utf8_byteLength_bounds (length s) s (le_n _)) as [Hb He].
  split; [exact Hb|]. split; [exact He|apply utf8_byteLength_ascii].
Qed.

(** X13.  Every body that has a derived length, a text or a buffer,
    passes the body check, the empty ones included: the empty text is falsy
    and skips the check, the length 0 is still written to the headers, and
    the promise is not rejected. *)
Theorem sized_bodies_are_accepted_down_to_length_zero
    (this : Client) pathOrUrl reqOpts data telemetry n :
  getContentLength data = Some n ->
  let r := request this pathOrUrl reqOpts data telemetry in
  truthy data && negb (isConsumable data) = false
  /\ (0 <= n)%Z
  /\ headers_of (req_opts (state r)) !! "content-length" = Some (HNum n)
  /\ promise (state r) = Pending
  /\ (n = 0%Z <-> data = JString [] \/ data = JBuffer [])
  /\ (data = JString [] -> truthy data = false).
Proof.
  intros Hn. cbv zeta.
  assert (Hc : truthy data && negb (isConsumable data) = false)
    by (destruct data; try discriminate Hn; cbn; rewrite ?andb_false_r; reflexivity).
  split; [exact Hc|].
  split; [destruct data; try discriminate Hn; injection Hn as <-; lia|].
  split.
  { rewrite request_req_opts, Hn. cbn. unfold headers_of.
    rewrite lookup_insert_eq. apply lookup_insert_eq. }
  split; [rewrite request_promise, Hc; reflexivity|].
  split.
  - destruct data as [| | | | |s|octets| |]; try discriminate Hn; injection Hn as <-.
    + split.
      * intros H. destruct s; [auto|discriminate H].
      * intros [[= ->]|[=]]. reflexivity.
    + split.
      * intros H. destruct octets; [auto|discriminate H].
      * intros [[=]|[= ->]]. reflexivity.
  - intros ->. reflexivity.
Qed.

(** X14.  The merge of the options is shallow: when the per-call options
    carry a [headers] object, the headers sent are the per-call ones (with
    the derived content length for a sized body), and the base headers are
    dropped as a whole. *)
Theorem per_call_headers_replace_base_headers
    (this : Client) pathOrUrl base own hb ho data telemetry :
  baseReqOpts this = Some base ->
  base !! "headers" = Some (OHeaders hb) ->
  own !! "headers" = Some (OHeaders ho) ->
  let sent r := headers_of (req_opts (state r)) in
  sent (HttpClient.get new_URL this pathOrUrl (Some own) telemetry) = ho
  /\ sent (HttpClient.delete new_URL this pathOrUrl (Some own) telemetry) = ho
  /\ sent (HttpClient.post new_URL this pathOrUrl (Some own) data telemetry)
     = match getContentLength data with
       | Some n => <["content-length" := HNum n]> ho
       | None => ho
       end.
Proof.
  intros Hb Hhb Hho. cbv zeta.
  unfold HttpClient.get, HttpClient.post, HttpClient.delete.
  rewrite !request_req_opts. cbn [getContentLength assign_content_length].
  assert (H : forall m,
             headers_of (HttpClient.combineOpts this m (Some own)) = ho).
  { intros m. unfold headers_of, HttpClient.combineOpts.
    rewrite lookup_insert_ne by discriminate.
    rewrite spread_lookup. cbn. rewrite Hho. reflexivity. }
  split; [apply H|]. split; [apply H|].
  destruct (getContentLength data) as [n|]; cbn [assign_content_length]; [|apply H].
  rewrite headers_of_insert, H. reflexivity.
Qed.

(** X15.  Options that a wrapper merged can be passed to a wrapper again:
    merging them once more, under any verb, gives what merging the
    per-call options under that verb gives. *)
Theorem merging_merged_options_again_is_merging_once
    (this : Client) m1 m2 reqOpts :
  HttpClient.combineOpts this m2 (Some (HttpClient.combineOpts this m1 reqOpts))
  = HttpClient.combineOpts this m2 reqOpts.
Proof.
  apply map_eq. intros k. unfold HttpClient.combineOpts.
  destruct (decide (k = "method")) as [->|Hk].
  - rewrite !lookup_insert_eq. reflexivity.
  - rewrite !lookup_insert_ne by congruence.
    rewrite !spread_lookup. cbn [spread_opt default]. unfold id.
    rewrite lookup_insert_ne by congruence. rewrite spread_lookup.
    unfold override. destruct (spread_opt reqOpts !! k), (spread_opt (baseReqOpts this) !! k);
      reflexivity.
Qed.


Lemma request_without_body (this : Client) pathOrUrl opts telemetry :
  sends_no_body opts (request this pathOrUrl opts JUndefined telemetry).
Proof.
  unfold sends_no_body.
  split; [apply request_req_opts|]. split; [apply request_promise|].
  unfold HttpClient.request, HttpClient.request_body, HttpClient.buildUrl.
  cbn [truthy andb getContentLength assign_content_length].
  destruct pathOrUrl as [path|u]; [destruct (new_URL path _) as [u|]|];
    destruct telemetry as [sink|]; eval_M; split_sink_eval;
    intros Hc; try discriminate Hc; exists u; reflexivity.
Qed.

(** X16.  [get] and [delete] hand no body over, whatever the options: no
    content length is derived, the options sent are the merged ones, a
    call that returns has ended the request with no chunk, and the promise
    is left pending. *)
Theorem get_and_delete_send_no_body
    (this : Client) pathOrUrl reqOpts telemetry :
  sends_no_body (HttpClient.combineOpts this Get reqOpts)
    (HttpClient.get new_URL this pathOrUrl reqOpts telemetry)
  /\ sends_no_body (HttpClient.combineOpts this Delete reqOpts)
       (HttpClient.delete new_URL this pathOrUrl reqOpts telemetry).
Proof.
  split; apply request_without_body.
Qed.

End Properties.

(** ** Theorems at sample inputs *)

(** An instance of C10. *)
Lemma constructor_checks_protocol_witness :
  HttpClient.constructor sample_URL "https://example.org/" None
  = inl (unsupported_protocol_error "https:")
  /\ HttpClient.constructor sample_URL "http://localhost:3000/" (Some ∅)
     = inr (mkClient "http://localhost:3000/" (Some ∅)).
Proof.
  split.
  - apply (constructor_checks_protocol sample_URL "https://example.org/" None
             (mkURL "https:" "https://example.org/") eq_refl).
    discriminate.
  - apply (constructor_checks_protocol sample_URL "http://localhost:3000/" (Some ∅)
             (mkURL "http:" "http://localhost:3000/") eq_refl).
    reflexivity.
Defined.

(** C3, at the text body of one code unit U+00E9: [request] declares a
    content length of 1, the code-unit count, where the body is written as
    two octets. *)
Theorem text_content_length_counts_code_units :
  headers_of
    (req_opts
       (state
          (HttpClient.request sample_URL sample_client (PPath "/") ∅
             (JString e_acute) None)))
    !! "content-length" = Some (HNum 1)
  /\ utf8_byteLength e_acute = 2.
Proof.
  split; [|reflexivity].
  apply (string_content_length sample_URL sample_client (PPath "/") ∅ e_acute None).
Qed.

(** C4, as stated, fails: the body [false] is none of absent, Buffer,
    string or Readable, yet [request] returns a pending promise, opens the
    request, publishes telemetry and ends the request with that value. *)
Lemma falsy_unrecognised_body_is_sent :
  let r := HttpClient.request sample_URL sample_client (PPath "/") ∅
             (JBool false) (Some noop_sink) in
  ~ recognised (JBool false)
  /\ isConsumable (JBool false) = false
  /\ completion r = Returned
  /\ promise (state r) = Pending
  /\ opened (state r) = true
  /\ map ev_type (telemetry_log (state r))
     = [RequestStreamInitialised; RequestStreamEnded]
  /\ In (EEnd (JBool false)) (effects (state r)).
Proof.
  cbn. repeat split; auto 10.
Qed.

(** An instance of C4: the body [42]. *)
Lemma unrecognised_truthy_body_is_rejected_witness :
  let r := HttpClient.request sample_URL sample_client (PPath "/") ∅
             (JNumber 42) (Some noop_sink) in
  truthy (JNumber 42) = true
  /\ isConsumable (JNumber 42) = false
  /\ promise (state r) = Rejected (PErr invalid_body_error)
  /\ effects (state r) = []
  /\ telemetry_log (state r) = [].
Proof.
  cbv zeta.
  destruct (unrecognised_truthy_body_is_rejected sample_URL sample_client (PPath "/")
              ∅ (JNumber 42) (Some noop_sink) [] eq_refl eq_refl)
    as (_ & Hp & _ & He & Hl & _).
  split; [reflexivity|]. split; [reflexivity|]. split; [exact Hp|].
  split; [exact He|exact Hl].
Defined.

(** ** Counterexamples and instances *)

(** C1, as stated, fails: with a listener that throws on
    ResponseStreamReceived, the ['response'] signal leaves the promise
    pending, with its listener spent, and nothing but a failure of the
    request can settle it afterwards; neither success nor failure
    occurs. *)
Lemma throwing_sink_leaves_outcome_pending :
  let tel := Some (throwing_sink ResponseStreamReceived) in
  let st := run tel [SigResponse sample_response] (state (sample_get tel)) in
  completion (sample_get tel) = Returned
  /\ promise st = Pending
  /\ settlements st = []
  /\ att evResponse (em_req st) = false
  /\ (forall more,
        Forall (fun sig => is_failure sig = false) more ->
        promise (run tel more st) = Pending).
Proof.
  cbv zeta.
  assert (E : promise
                (run (Some (throwing_sink ResponseStreamReceived))
                   [SigResponse sample_response]
                   (state (sample_get (Some (throwing_sink ResponseStreamReceived)))))
              = Pending) by (vm_compute; reflexivity).
  assert (R : att evResponse
                (em_req
                   (run (Some (throwing_sink ResponseStreamReceived))
                      [SigResponse sample_response]
                      (state (sample_get (Some (throwing_sink ResponseStreamReceived))))))
              = false) by (vm_compute; reflexivity).
  split; [reflexivity|]. split; [exact E|].
  split; [vm_compute; reflexivity|]. split; [exact R|].
  intros more Hm. rewrite spent_response_run; [exact E| |exact R|exact Hm].
  apply run_Inv. apply request_inv.
Qed.

(** An instance of C1: a response followed by a late error. *)
Lemma outcome_settles_at_most_once_witness :
  let sigs := [SigSocket; SigConnect; SigResponse sample_response; SigError ECONNRESET] in
  let st := run (Some noop_sink) sigs (state (sample_get (Some noop_sink))) in
  quiet (Some noop_sink)
  /\ recognised JUndefined
  /\ completion (sample_get (Some noop_sink)) = Returned
  /\ promise st = Fulfilled (PRes sample_response)
  /\ length (settlements st) <= 1
  /\ settle_calls st = 2.
Proof.
  cbv zeta.
  destruct (outcome_settles_at_most_once sample_URL sample_client (PPath "/") ∅
              JUndefined (Some noop_sink)
              [SigSocket; SigConnect; SigResponse sample_response; SigError ECONNRESET])
    as (_ & Hlen & _ & Hout).
  split; [exact quiet_noop|]. split; [exact I|]. split; [reflexivity|].
  split; [exact (Hout quiet_noop I eq_refl)|]. split; [exact Hlen|reflexivity].
Defined.



(** C5, as stated, fails: when the request fails before a socket is
    assigned, RequestStreamEnded stands between RequestStreamInitialised
    and RequestError. *)
Lemma unresolved_host_publishes_body_completed :
  let st := run (Some noop_sink) [SigError ENOTFOUND] (state (sample_get (Some noop_sink))) in
  promise st = Rejected (PErr ENOTFOUND)
  /\ map ev_type (telemetry_log st)
     = [RequestStreamInitialised; RequestStreamEnded; RequestError]
  /\ map ev_type (telemetry_log st) <> [RequestStreamInitialised; RequestError].
Proof. vm_compute. repeat split. discriminate. Qed.

(** An instance of C5: signals after the error publish nothing. *)
Lemma failure_before_socket_witness :
  let st := run (Some noop_sink) [SigError ENOTFOUND; SigSocket; SigResponse sample_response]
              (state (sample_get (Some noop_sink))) in
  quiet (Some noop_sink)
  /\ recognised JUndefined
  /\ completion (sample_get (Some noop_sink)) = Returned
  /\ map ev_type (telemetry_log st)
     = [RequestStreamInitialised; RequestStreamEnded; RequestError]
  /\ promise st = Rejected (PErr ENOTFOUND).
Proof.
  cbv zeta.
  destruct (failure_before_socket sample_URL sample_client (PPath "/") ∅ JUndefined
              noop_sink ENOTFOUND [SigSocket; SigResponse sample_response]
              quiet_noop I eq_refl)
    as (Hl & _ & Hp & _).
  split; [exact quiet_noop|]. split; [exact I|]. split; [reflexivity|].
  split; [exact Hl|exact Hp].
Defined.

(** C6, as stated, fails in two ways: a stream error that comes after the
    response leaves the promise fulfilled, so that the error of the source
    is not the outcome; and with a listener that throws on RequestError,
    as in the GET and POST tests, the request is destroyed with the error
    of the source but the promise stays pending. *)
Lemma stream_error_can_miss_the_outcome :
  (let tel := Some noop_sink in
   let st := run tel [SigResponse sample_response; SigDataError ENOENT]
               (state (sample_post_stream tel)) in
   promise st = Fulfilled (PRes sample_response))
  /\ (let tel := Some (throwing_sink RequestError) in
      let st := run tel [SigSocket; SigDataError ENOENT]
                  (state (sample_post_stream tel)) in
      promise st = Pending /\ destroyed st = Some (PErr ENOENT)).
Proof. vm_compute. repeat split. Qed.

(** An instance of C6: the stream of the POST fails after the socket was
    assigned. *)
Lemma stream_error_destroys_request_witness :
  let st := run (Some noop_sink) [SigSocket] (state (sample_post_stream (Some noop_sink))) in
  let a := step (Some noop_sink) (SigDataError ENOENT) st in
  completion (sample_post_stream (Some noop_sink)) = Returned
  /\ Forall (fun sig => is_terminal (Some 1) sig = false) [SigSocket]
  /\ quiet (Some noop_sink)
  /\ destroyed a = Some (PErr ENOENT)
  /\ promise a = Rejected (PErr ENOENT)
  /\ telemetry_log a = telemetry_log st ++ [mkEvent RequestError None (PErr ENOENT)].
Proof.
  cbv zeta.
  assert (H : Forall (fun sig => is_terminal (Some 1) sig = false) [SigSocket])
    by (repeat constructor).
  destruct (stream_error_destroys_request sample_URL sample_client (PPath "/") ∅ 1
              (Some noop_sink) [SigSocket] ENOENT eq_refl H)
    as (_ & Hd & _ & _ & _ & Hl & Hp).
  split; [reflexivity|]. split; [exact H|]. split; [exact quiet_noop|].
  split; [exact Hd|]. split; [exact (Hp quiet_noop)|].
  apply Hl. discriminate.
Defined.

(** C7, as stated, fails: with a listener that throws on RequestError, as
    in the GET and POST tests, the transport's error leaves the promise
    pending, where the call without emitter rejects it. *)
Lemma throwing_sink_changes_outcome :
  let tel := Some (throwing_sink RequestError) in
  promise (run tel [SigError ENOTFOUND] (state (sample_get tel))) = Pending
  /\ promise (run None [SigError ENOTFOUND] (state (sample_get None)))
     = Rejected (PErr ENOTFOUND).
Proof. vm_compute. split; reflexivity. Qed.

(** An instance of C7. *)
Lemma quiet_sink_leaves_outcome_witness :
  let sigs := [SigSocket; SigConnect; SigResponse sample_response] in
  quiet (Some noop_sink)
  /\ promise (run (Some noop_sink) sigs (state (sample_get (Some noop_sink))))
     = promise (run None sigs (state (sample_get None))).
Proof.
  cbv zeta. split; [exact quiet_noop|].
  apply (quiet_sink_leaves_outcome sample_URL sample_client (PPath "/") ∅ JUndefined
           noop_sink [SigSocket; SigConnect; SigResponse sample_response] quiet_noop).
Defined.

(** ** Instances of the further properties *)

(** An instance of X4: the listener of RequestError throws, and neither
    the late response nor a second error settles the promise. *)
Lemma published_failure_is_final_witness :
  let tel := Some (throwing_sink RequestError) in
  let st := run tel [SigError ENOTFOUND] (state (sample_get tel)) in
  let late := [SigResponse sample_response; SigError ECONNRESET] in
  published RequestError (telemetry_log st) = true
  /\ promise st = Pending
  /\ promise (run tel late st) = promise st
  /\ telemetry_log (run tel late st) = telemetry_log st.
Proof.
  cbv zeta.
  destruct (published_failure_is_final sample_URL sample_client (PPath "/") ∅
              JUndefined (Some (throwing_sink RequestError)) [SigError ENOTFOUND]
              [SigResponse sample_response; SigError ECONNRESET] eq_refl)
    as (_ & Hp & _ & Hl).
  split; [reflexivity|]. split; [reflexivity|]. split; [exact Hp|exact Hl].
Defined.

(** An instance of X5: the connection is reset after the response. *)
Lemma failure_after_response_is_published_witness :
  let sigs := [SigSocket; SigConnect; SigResponse sample_response;
               SigError ECONNRESET] in
  let st := run (Some noop_sink) sigs (state (sample_get (Some noop_sink))) in
  quiet (Some noop_sink)
  /\ recognised JUndefined
  /\ completion (sample_get (Some noop_sink)) = Returned
  /\ promise st = Fulfilled (PRes sample_response)
  /\ last (telemetry_log st) = Some (mkEvent RequestError None (PErr ECONNRESET)).
Proof.
  cbv zeta.
  assert (Hpre : Forall (fun sig => is_progress sig = true) [SigSocket; SigConnect])
    by (repeat constructor).
  destruct (failure_after_response_is_published sample_URL sample_client (PPath "/")
              ∅ JUndefined noop_sink [SigSocket; SigConnect] sample_response []
              ECONNRESET quiet_noop I eq_refl Hpre (List.Forall_nil _))
    as (Hp & Hl & _).
  split; [exact quiet_noop|]. split; [exact I|]. split; [reflexivity|].
  split; [exact Hp|exact Hl].
Defined.

(** An instance of X6: the stream of the POST fails, then the connection
    is reset. *)
Lemma quiet_telemetry_raises_nothing_witness :
  let sigs := [SigSocket; SigDataError ENOENT; SigError ECONNRESET] in
  quiet (Some noop_sink)
  /\ completion (sample_post_stream (Some noop_sink)) = Returned
  /\ length (List.filter is_data_error sigs) <= 1
  /\ uncaught (run (Some noop_sink) sigs (state (sample_post_stream (Some noop_sink))))
     = [].
Proof.
  cbv zeta. split; [exact quiet_noop|]. split; [reflexivity|].
  split; [apply le_n|].
  apply (quiet_telemetry_raises_nothing sample_URL sample_client (PPath "/") ∅
           (JReadable 1) (Some noop_sink)
           [SigSocket; SigDataError ENOENT; SigError ECONNRESET] quiet_noop eq_refl).
  apply le_n.
Defined.

(** An instance of X7: the socket is reported twice. *)
Lemma repeated_signal_changes_nothing_witness :
  let st := run (Some noop_sink) [SigSocket] (state (sample_get (Some noop_sink))) in
  completion (sample_get (Some noop_sink)) = Returned
  /\ is_data_error SigSocket = false
  /\ step (Some noop_sink) SigSocket (step (Some noop_sink) SigSocket st)
     = step (Some noop_sink) SigSocket st.
Proof.
  cbv zeta. split; [reflexivity|]. split; [reflexivity|].
  apply (repeated_signal_changes_nothing sample_URL sample_client (PPath "/") ∅
           JUndefined (Some noop_sink) [SigSocket] SigSocket eq_refl eq_refl).
Defined.

(** An instance of X8: the GET of the tests. *)
Lemma returned_call_has_made_these_calls_witness :
  let r := sample_get (Some noop_sink) in
  completion r = Returned
  /\ truthy JUndefined && negb (isConsumable JUndefined) = false
  /\ exists url,
       resolves_to sample_URL sample_client (PPath "/") url
       /\ effects (state r)
          = [EOpen url ∅; ESetMaxListeners 5; EOnce TReq evSocket;
             EOnce TReq evResponse; EOnce TReq evError; EEnd JUndefined;
             EOnce TResolver evResolve; EOnce TResolver evReject].
Proof.
  cbv zeta. split; [reflexivity|]. split; [reflexivity|].
  destruct (returned_call_has_made_these_calls sample_URL sample_client (PPath "/")
              ∅ JUndefined (Some noop_sink) eq_refl eq_refl)
    as (url & Hu & He & _).
  exists url. split; [exact Hu|exact He].
Defined.

(** An instance of X9: the text body has its length merged into the
    options before the address is refused. *)
Lemma unparsable_path_throws_before_opening_witness :
  let r := HttpClient.request strict_URL sample_client (PPath "http://[") ∅
             (JString e_acute) (Some noop_sink) in
  strict_URL "http://[" (Some (baseUrl sample_client)) = None
  /\ truthy (JString e_acute) && negb (isConsumable (JString e_acute)) = false
  /\ completion r = Threw (PErr invalid_url_error)
  /\ effects (state r) = []
  /\ req_opts (state r) = assign_content_length (Some 1%Z) ∅.
Proof.
  cbv zeta. split; [reflexivity|]. split; [reflexivity|].
  destruct (unparsable_path_throws_before_opening strict_URL sample_client
              "http://[" ∅ (JString e_acute) (Some noop_sink) eq_refl eq_refl)
    as (Hc & _ & He & _ & _ & Ho).
  split; [exact Hc|]. split; [exact He|exact Ho].
Defined.



(** An instance of X13: the empty text. *)
Lemma sized_bodies_are_accepted_down_to_length_zero_witness :
  let r := HttpClient.request sample_URL sample_client (PPath "/") ∅ (JString [])
             None in
  getContentLength (JString []) = Some 0%Z
  /\ truthy (JString []) = false
  /\ headers_of (req_opts (state r)) !! "content-length" = Some (HNum 0)
  /\ promise (state r) = Pending.
Proof.
  cbv zeta. split; [reflexivity|]. split; [reflexivity|].
  destruct (sized_bodies_are_accepted_down_to_length_zero sample_URL sample_client
              (PPath "/") ∅ (JString []) None 0%Z eq_refl)
    as (_ & _ & Hh & Hp & _).
  split; [exact Hh|exact Hp].
Defined.

(** An instance of X14: the base options carry an [authorization] header,
    the per-call options an [accept] header; the GET is sent without the
    [authorization] header. *)
Lemma per_call_headers_replace_base_headers_witness :
  let r := HttpClient.get sample_URL sample_client_with_base (PPath "/")
             (Some sample_call_options) None in
  baseReqOpts sample_client_with_base = Some sample_base_options
  /\ sample_base_options !! "headers"
     = Some (OHeaders {["authorization" := HStr "Bearer token"]})
  /\ sample_call_options !! "headers"
     = Some (OHeaders {["accept" := HStr "text/plain"]})
  /\ headers_of (req_opts (state r)) = {["accept" := HStr "text/plain"]}.
Proof.
  cbv zeta. split; [reflexivity|].
  assert (Hb : sample_base_options !! "headers"
               = Some (OHeaders {["authorization" := HStr "Bearer token"]}))
    by apply lookup_singleton_eq.
  assert (Ho : sample_call_options !! "headers"
               = Some (OHeaders {["accept" := HStr "text/plain"]}))
    by apply lookup_singleton_eq.
  split; [exact Hb|]. split; [exact Ho|].
  destruct (per_call_headers_replace_base_headers sample_URL sample_client_with_base
              (PPath "/") sample_base_options sample_call_options
              {["authorization" := HStr "Bearer token"]}
              {["accept" := HStr "text/plain"]} JUndefined None eq_refl Hb Ho)
    as (Hg & _).
  exact Hg.
Defined.
